(** * transcribe_youtube.py: transcript selection, timestamps, video ids

    A shallow embedding of [src/python/transcribe_youtube.py] and the
    properties its specification states about it.

    Conventions of the embedding.
    - Python exceptions are values of [exn] (a class and the text that
      [str(e)] gives); a call that can raise returns a [result].  Only
      subclasses of [Exception] are modelled: an asynchronous
      [KeyboardInterrupt] is outside the model.
    - The remote service is an oracle: the outcome of every [list],
      [fetch] and [translate] call is a field of the object it is called
      on, fixed for one invocation.
    - A [float] number of seconds is the rational it denotes ([Q]).  The
      rounding of float arithmetic, infinities and NaN are not modelled:
      [//], [%] and [int] are exact on the floats from 0 up to one
      hundred hours and beyond (any non-negative float of ordinary size),
      not on negative floats close to 0 nor on floats too large to hold
      every integer.  The properties of [format_timestamp] are stated
      for 0 <= seconds < 360000, where model and code agree; the sum of
      two floats, which rounds, is a parameter of the script. *)

From Stdlib Require Import Ascii QArith Qround DecimalString.
From stdpp Require Import base strings list gmap.

Local Open Scope string_scope.
Local Open Scope Z_scope.

(** ** Exceptions and results *)

Module Py.

Inductive exn_class :=
  | TranscriptsDisabled
  | VideoUnavailable
  | NoTranscriptFound
  | NotTranslatable
  | TranslationLanguageNotAvailable
  | RequestFailed
  | StopIteration
  | IndexError
  | ValueError
  | Exception.

#[global] Instance exn_class_eq_dec : EqDecision exn_class.
Proof. solve_decision. Defined.

(** An exception object: its class and [str(e)]. *)
Record exn := Exn { exn_cls : exn_class; exn_str : string }.

(** [isinstance(e, c)] for the classes the script names in an [except]
    clause.  Every modelled class derives from [Exception]; the three
    library classes the script catches have no subclasses. *)
Definition isinstance (e : exn) (c : exn_class) : bool :=
  match c with
  | Exception => true
  | _ => bool_decide (exn_cls e = c)
  end.

Inductive result (A : Type) :=
  | Ok (a : A)
  | Raise (e : exn).
Arguments Ok {A} a.
Arguments Raise {A} e.

#[global] Instance result_ret : MRet result := fun A a => Ok a.
#[global] Instance result_bind : MBind result := fun A B k m =>
  match m with
  | Ok a => k a
  | Raise e => Raise e
  end.

(** [try: body except c: pass], followed by [rest]; [body] always ends
    in a [return] or an exception. *)
Definition try_pass {A} (c : exn_class) (body rest : result A) : result A :=
  match body with
  | Ok a => Ok a
  | Raise e => if isinstance e c then rest else Raise e
  end.

End Py.
Import Py.

(** ** String helpers of the Python runtime *)

(** [sub in s]. *)
Fixpoint contains (sub s : string) : bool :=
  String.prefix sub s ||
  match s with
  | EmptyString => false
  | String _ s' => contains sub s'
  end.

(** [s.startswith(p)]. *)
Definition startswith (s p : string) : bool := String.prefix p s.

(** [str(n)] for an integer. *)
Definition str_of_int (n : Z) : string := NilZero.string_of_int (Z.to_int n).

(** [format(n, "02d")]: decimal, zero-padded to a width of at least two;
    the sign counts for the width. *)
Definition fmt_02d (n : Z) : string :=
  if (0 <=? n) && (n <? 10) then "0" ++ str_of_int n else str_of_int n.

(** [c * n] for a one-character string. *)
Fixpoint str_repeat (c : string) (n : nat) : string :=
  match n with
  | O => ""
  | S n' => c ++ str_repeat c n'
  end.

(** [sep.join(l)]. *)
Fixpoint join (sep : string) (l : list string) : string :=
  match l with
  | [] => ""
  | [x] => x
  | x :: rest => x ++ sep ++ join sep rest
  end.

(** ** format_timestamp *)

(** [x // y] and [x % y] on floats, and [int(x)], as the exact
    operations on the rationals the floats denote: what the float
    operations give on the range 0 <= x < 360000 used below. *)
Definition floordiv (x y : Q) : Q := inject_Z (Qfloor (x / y)).
Definition pymod (x y : Q) : Q := (x - y * inject_Z (Qfloor (x / y)))%Q.
Definition int_ (x : Q) : Z := if Qle_bool 0 x then Qfloor x else Qceiling x.

Definition format_timestamp (seconds : Q) : string :=
  let hours := int_ (floordiv seconds 3600) in
  let minutes := int_ (floordiv (pymod seconds 3600) 60) in
  let secs := int_ (pymod seconds 60) in
  if 0 <? hours
  then fmt_02d hours ++ ":" ++ fmt_02d minutes ++ ":" ++ fmt_02d secs
  else fmt_02d minutes ++ ":" ++ fmt_02d secs.

(** ** The transcript objects of youtube_transcript_api *)

(** One caption snippet of a fetched transcript. *)
Record FetchedTranscriptSnippet := Snippet {
  text : string;
  start : Q;
  duration : Q }.

Abbreviation FetchedTranscript := (list FetchedTranscriptSnippet).

(** A [Transcript] object.  [fetch] and [translate] are the outcomes of
    the calls [transcript.fetch()] and [transcript.translate(lang)]; a
    translation is again a [Transcript]. *)
#[local] Unset Elimination Schemes.
Inductive Transcript := mkTranscript {
  language_code : string;
  is_generated : bool;
  fetch : result FetchedTranscript;
  translate : string -> result Transcript }.
#[local] Set Elimination Schemes.

(** A [TranscriptList], as the sequence its iterator yields. *)
Abbreviation TranscriptList := (list Transcript).

(** Modelled from the spec: the library method
    [TranscriptList._find_transcript], which is not part of this
    repository.  The search follows the order of [language_codes], not the
    order of the catalog, is restricted to tracks whose [is_generated] flag
    is [generated], matches the code by string equality, and raises
    [NoTranscriptFound] when no code matches. *)
Fixpoint _find_transcript (generated : bool) (transcript_list : TranscriptList)
    (language_codes : list string) : result Transcript :=
  match language_codes with
  | [] => Raise (Exn NoTranscriptFound "No transcripts were found for any of the requested language codes")
  | code :: rest =>
      match List.find (fun t => Bool.eqb (is_generated t) generated
                                && String.eqb (language_code t) code)
                      transcript_list with
      | Some t => Ok t
      | None => _find_transcript generated transcript_list rest
      end
  end.

Definition find_manually_created_transcript := _find_transcript false.
Definition find_generated_transcript := _find_transcript true.

(** [next(iter(transcript_list))]. *)
Definition next_iter (transcript_list : TranscriptList) : result Transcript :=
  match transcript_list with
  | t :: _ => Ok t
  | [] => Raise (Exn StopIteration "")
  end.

(** The API object: the outcome of [ytt_api.list(video_id)]. *)
Record YouTubeTranscriptApi := Api {
  api_list : string -> result TranscriptList }.

(** ** get_transcript *)

(** What [get_transcript] returns:
    [(transcript, language_code, transcript_type)]. *)
Abbreviation Selection := (FetchedTranscript * string * string)%type.

Definition default_languages : list string := ["en"; "en-US"; "en-GB"].

Definition transcript_type_of (transcript : Transcript) : string :=
  if is_generated transcript then "auto-generated" else "manual".

(** The body of the [try] inside the [for] loop (lines 100-105). *)
Definition loop_body (transcript : Transcript) : result Selection :=
  if startswith (language_code transcript) "en" then
    let transcript_type := transcript_type_of transcript in
    segments ← fetch transcript;
    Ok (segments, language_code transcript, transcript_type)
  else
    translated ← translate transcript "en";
    segments ← fetch translated;
    Ok (segments,
        "en (translated from " ++ language_code transcript ++ ")",
        "translated").

(** The [for] loop (lines 98-107): [except Exception: continue].  [None]
    when the loop runs to its end without a [return]. *)
Fixpoint for_loop (transcript_list : TranscriptList) : option Selection :=
  match transcript_list with
  | [] => None
  | transcript :: rest =>
      match loop_body transcript with
      | Ok r => Some r
      | Raise _ => for_loop rest
      end
  end.

(** The body of the outer [try] (lines 81-112). *)
Definition get_transcript_try (ytt_api : YouTubeTranscriptApi)
    (video_id : string) (languages : list string) : result Selection :=
  transcript_list ← api_list ytt_api video_id;
  try_pass NoTranscriptFound
    (transcript ← find_manually_created_transcript transcript_list languages;
     segments ← fetch transcript;
     Ok (segments, language_code transcript, "manual"))
  (try_pass NoTranscriptFound
    (transcript ← find_generated_transcript transcript_list languages;
     segments ← fetch transcript;
     Ok (segments, language_code transcript, "auto-generated"))
  (match for_loop transcript_list with
   | Some r => Ok r
   | None =>
       transcript ← next_iter transcript_list;
       let transcript_type := transcript_type_of transcript in
       segments ← fetch transcript;
       Ok (segments, language_code transcript, transcript_type)
   end)).

Definition get_transcript (ytt_api : YouTubeTranscriptApi)
    (video_id : string) (languages : option (list string)) : result Selection :=
  let languages := default default_languages languages in
  match get_transcript_try ytt_api video_id languages with
  | Ok r => Ok r
  | Raise e =>
      if isinstance e TranscriptsDisabled then
        Raise (Exn Exception "Transcripts are disabled for this video")
      else if isinstance e VideoUnavailable then
        Raise (Exn Exception "Video is unavailable")
      else if isinstance e NoTranscriptFound then
        Raise (Exn Exception "No transcript found for this video")
      else Raise e
  end.

(** ** extract_video_id *)

(** [s.strip("/")]. *)
Fixpoint lstrip_slash (s : string) : string :=
  match s with
  | String "/"%char s' => lstrip_slash s'
  | _ => s
  end.

Definition strip_slash (s : string) : string :=
  String.rev (lstrip_slash (String.rev (lstrip_slash s))).

(** [s.split("/")[-1]]: what follows the last slash. *)
Fixpoint last_segment_from (acc s : string) : string :=
  match s with
  | EmptyString => acc
  | String "/"%char s' => last_segment_from s' s'
  | String _ s' => last_segment_from acc s'
  end.

Definition last_segment (s : string) : string := last_segment_from s s.

(** The fields of [urllib.parse.ParseResult]. *)
Record ParseResult := mkParseResult {
  scheme : string;
  netloc : string;
  path : string;
  params : string;
  query : string;
  fragment : string }.

(** [not video_id] for an [Optional[str]]. *)
Definition falsy (video_id : option string) : bool :=
  match video_id with
  | None => true
  | Some s => String.eqb s ""
  end.

Inductive Termination :=
  | Finished
  | SysExit (code : Z)
  | Uncaught (e : exn).

(** The exit status of the process. *)
Definition exit_status (t : Termination) : Z :=
  match t with
  | Finished => 0
  | SysExit code => code
  | Uncaught _ => 1
  end.

(** One run of the script: the [print] calls in order, the text written
    to the output file if it was written, and how the run ended. *)
Record Outcome := mkOutcome {
  stdout : list string;
  saved : option (string * string);
  termination : Termination }.

Section Script.

(** [urllib.parse.urlparse] and [urllib.parse.parse_qs] of the Python
    standard library ([urlparse] raises [ValueError] on some inputs),
    [re.sub(r'[^\w\-]', '_', .)], the directory of the script, and the
    sum of two floats, which is the exact sum rounded to a float. *)
Variable urlparse : string -> result ParseResult.
Variable parse_qs : string -> gmap string (list string).
Variable re_sub_unsafe : string -> string.
Variable script_dir : string.
Variable float_add : Q -> Q -> Q.

Definition extract_video_id (youtube_url : string) : result (option string) :=
  if contains "youtu.be" youtube_url then
    parsed ← urlparse youtube_url;
    Ok (Some (strip_slash (path parsed)))
  else
    parsed ← urlparse youtube_url;
    if contains "youtube.com" (netloc parsed) then
      if contains "/watch" (path parsed) then
        let query := parse_qs (query parsed) in
        match query !! "v" with
        | Some (v :: _) => Ok (Some v)
        | Some [] => Raise (Exn IndexError "list index out of range")
        | None => Ok None
        end
      else if contains "/embed/" (path parsed) || contains "/v/" (path parsed) then
        Ok (Some (last_segment (path parsed)))
      else Ok (Some youtube_url)
    else Ok (Some youtube_url).

(** ** main

    The run of the script as the list of its [print] calls, the file it
    writes and the way it ends.  Creating the directory and writing the
    file are taken to succeed. *)

Definition rule : string := str_repeat "=" 80.

Definition timestamp_line (segment : FetchedTranscriptSnippet) : string :=
  let end_ := float_add (start segment) (duration segment) in
  let timestamp :=
    "[" ++ format_timestamp (start segment) ++ " -> "
        ++ format_timestamp end_ ++ "]" in
  timestamp ++ " " ++ text segment.

Definition newline : string := String (Ascii.ascii_of_nat 10) "".

Definition main (ytt_api : YouTubeTranscriptApi) (argv : list string) : Outcome :=
  match argv with
  | _ :: youtube_url :: _ =>
      match extract_video_id youtube_url with
      | Raise e => mkOutcome [] None (Uncaught e)
      | Ok video_id =>
          if falsy video_id then
            mkOutcome ["Error: Could not extract video ID from URL"] None (SysExit 1)
          else
            let video_id := default "" video_id in
            let out1 :=
              ["YouTube URL: " ++ youtube_url;
               "Video ID: " ++ video_id;
               newline ++ "Fetching transcript..."] in
            match get_transcript ytt_api video_id None with
            | Raise e =>
                mkOutcome (app out1 ["Error: " ++ exn_str e]) None (SysExit 1)
            | Ok (transcript, language, transcript_type) =>
                let full_text_combined := join " " (map text transcript) in
                let out2 :=
                  app ["Language: " ++ language ++ " (" ++ transcript_type ++ ")";
                       "Found " ++ str_of_int (Z.of_nat (length transcript)) ++ " segments";
                       newline ++ rule;
                       "TIMESTAMPED TRANSCRIPTION";
                       rule ++ newline]
                 (app (map timestamp_line transcript)
                      [newline ++ rule; "FULL TEXT"; rule ++ newline;
                       full_text_combined]) in
                let safe_filename := re_sub_unsafe video_id in
                let output_file :=
                  script_dir ++ "/transcriptions/" ++ safe_filename ++ ".txt" in
                let content :=
                  "Video ID: " ++ video_id ++ newline
                  ++ "URL: " ++ youtube_url ++ newline
                  ++ "Language: " ++ language ++ " (" ++ transcript_type ++ ")" ++ newline
                  ++ rule ++ newline ++ newline
                  ++ "TIMESTAMPED TRANSCRIPTION:" ++ newline ++ newline
                  ++ String.concat "" (map (fun seg => timestamp_line seg ++ newline) transcript)
                  ++ newline ++ rule ++ newline
                  ++ "FULL TEXT:" ++ newline ++ newline
                  ++ full_text_combined in
                mkOutcome
                  (app out1 (app out2
                     [newline ++ "Transcription saved to: " ++ output_file]))
                  (Some (output_file, content))
                  Finished
            end
      end
  | _ =>
      mkOutcome
        ["Usage: python transcribe_youtube.py <youtube_url>";
         "Example: python transcribe_youtube.py https://www.youtube.com/watch?v=dQw4w9WgXcQ"]
        None (SysExit 1)
  end.

End Script.

(** ** Vocabulary of the specification *)

(** The preference list in force: the default when none is given. *)
Definition languages_of (languages : option (list string)) : list string :=
  default default_languages languages.

(** What remains of the [try] body once both preference searches have
    raised [NoTranscriptFound]: the loop, then the first track. *)
Definition fallback (transcript_list : TranscriptList) : result Selection :=
  match for_loop transcript_list with
  | Some r => Ok r
  | None =>
      transcript ← next_iter transcript_list;
      segments ← fetch transcript;
      Ok (segments, language_code transcript, transcript_type_of transcript)
  end.

(** A field of exactly two decimal digits. *)
Definition digit (d : Z) : ascii := ascii_of_nat (48 + Z.to_nat d).
Definition two_digits (n : Z) : string :=
  String (digit (n / 10)) (String (digit (n mod 10)) "").

(** The message under which each error of the resolver leaves
    [get_transcript] (lines 114-119). *)
Definition terminal_message (c : exn_class) : string :=
  match c with
  | TranscriptsDisabled => "Transcripts are disabled for this video"
  | VideoUnavailable => "Video is unavailable"
  | _ => "No transcript found for this video"
  end.

(** The same track, except that a failing translation raises [f e]
    where it raised [e]. *)
Definition with_translate_error (f : exn -> exn) (t : Transcript) : Transcript :=
  mkTranscript (language_code t) (is_generated t) (fetch t)
    (fun lang => match translate t lang with
                 | Ok t' => Ok t'
                 | Raise e => Raise (f e)
                 end).

(** The reading of the timestamp format under which every field, the
    hours included, always has two characters. *)
Definition two_character_fields_always : Prop :=
  forall seconds : Q,
    (0 <= seconds)%Q ->
    ((seconds < 3600)%Q ->
       exists mm ss,
         format_timestamp seconds = mm ++ ":" ++ ss /\
         String.length mm = 2%nat /\ String.length ss = 2%nat) /\
    ((3600 <= seconds)%Q ->
       exists hh mm ss,
         format_timestamp seconds = hh ++ ":" ++ mm ++ ":" ++ ss /\
         String.length hh = 2%nat /\ String.length mm = 2%nat /\
         String.length ss = 2%nat).

(** The two-pass reading of steps 3 and 4: with no track in the
    preference list, the first English-prefixed track of the catalog is
    returned untranslated, whatever precedes it. *)
Definition english_scan_before_translation : Prop :=
  forall ytt_api video_id languages (transcript_list : TranscriptList) transcript segments,
    api_list ytt_api video_id = Ok transcript_list ->
    Forall (fun t => language_code t ∉ languages_of languages) transcript_list ->
    List.find (fun t => startswith (language_code t) "en") transcript_list = Some transcript ->
    fetch transcript = Ok segments ->
    get_transcript ytt_api video_id languages =
      Ok (segments, language_code transcript,
          if is_generated transcript then "auto-generated" else "manual").

(** The reading of [extract_video_id] under which every youtube.com
    /watch URL without a [v] parameter gives [None]. *)
Definition identity_and_missing_v : Prop :=
  (forall urlparse parse_qs youtube_url parsed,
     contains "youtu.be" youtube_url = false ->
     urlparse youtube_url = Ok parsed ->
     contains "youtube.com" (netloc parsed) = false ->
     extract_video_id urlparse parse_qs youtube_url = Ok (Some youtube_url)) /\
  (forall urlparse parse_qs youtube_url parsed,
     urlparse youtube_url = Ok parsed ->
     contains "youtube.com" (netloc parsed) = true ->
     contains "/watch" (path parsed) = true ->
     parse_qs (query parsed) !! "v" = None ->
     extract_video_id urlparse parse_qs youtube_url = Ok None).

(** ** Sample catalogs and URLs *)

Module Sample.

Definition not_translatable : string -> result Transcript :=
  fun _ => Raise (Exn NotTranslatable "The requested language is not translatable").

Definition machine_translation (segments : FetchedTranscript) : string -> result Transcript :=
  fun lang => Ok (mkTranscript lang true (Ok segments) not_translatable).

Definition hola : FetchedTranscript := [Snippet "hola" 0 (3 # 2); Snippet "mundo" (3 # 2) 2].
Definition hello : FetchedTranscript := [Snippet "hello" 0 (3 # 2); Snippet "world" (3 # 2) 2].
Definition hi : FetchedTranscript := [Snippet "hi" 0 (3 # 2); Snippet "world" (3 # 2) 2].
Definition bonjour : FetchedTranscript := [Snippet "bonjour" 0 1].

Definition es_manual := mkTranscript "es" false (Ok hola) (machine_translation hi).
Definition de_manual := mkTranscript "de" false (Ok hola) not_translatable.
Definition en_AU_manual := mkTranscript "en-AU" false (Ok hello) not_translatable.
Definition en_AU_unfetchable :=
  mkTranscript "en-AU" false (Raise (Exn RequestFailed "request to YouTube failed"))
               not_translatable.
Definition en_US_manual := mkTranscript "en-US" false (Ok hello) not_translatable.
Definition en_generated := mkTranscript "en" true (Ok hi) not_translatable.
Definition fr_generated := mkTranscript "fr" true (Ok bonjour) not_translatable.

(** An API object that lists the same catalog for every video. *)
Definition api_of (transcript_list : TranscriptList) : YouTubeTranscriptApi :=
  Api (fun _ => Ok transcript_list).

(** An API object whose [list] call raises. *)
Definition api_raising (c : exn_class) : YouTubeTranscriptApi :=
  Api (fun _ => Raise (Exn c "Could not retrieve a transcript for the video")).

(** What [urlparse] and [parse_qs] give on the URLs used below; any
    other string is taken as a bare path, which is what [urlparse] gives
    on a video id. *)
Definition urlparse (url : string) : result ParseResult :=
  if String.eqb url "https://www.youtube.com/watch?feature=youtu.be" then
    Ok (mkParseResult "https" "www.youtube.com" "/watch" "" "feature=youtu.be" "")
  else if String.eqb url "https://www.youtube.com/watch?list=PL1" then
    Ok (mkParseResult "https" "www.youtube.com" "/watch" "" "list=PL1" "")
  else if String.eqb url "https://www.youtube.com/watch?v=dQw4w9WgXcQ" then
    Ok (mkParseResult "https" "www.youtube.com" "/watch" "" "v=dQw4w9WgXcQ" "")
  else Ok (mkParseResult "" "" url "" "" "").

Definition parse_qs (qs : string) : gmap string (list string) :=
  if String.eqb qs "feature=youtu.be" then {[ "feature" := ["youtu.be"] ]}
  else if String.eqb qs "list=PL1" then {[ "list" := ["PL1"] ]}
  else if String.eqb qs "v=dQw4w9WgXcQ" then {[ "v" := ["dQw4w9WgXcQ"] ]}
  else ∅.

Definition video : string := "dQw4w9WgXcQ".

End Sample.

(** ** Vocabulary for the further properties *)

(** Where a returned selection comes from: a track fetched as it is, or
    the translation of a track that is not English-prefixed. *)
Definition untranslated_from (t : Transcript) (r : Selection) : Prop :=
  exists segments,
    fetch t = Ok segments /\
    r = (segments, language_code t, transcript_type_of t).

Definition translated_from (t : Transcript) (r : Selection) : Prop :=
  exists translated segments,
    startswith (language_code t) "en" = false /\
    translate t "en" = Ok translated /\
    fetch translated = Ok segments /\
    r = (segments, "en (translated from " ++ language_code t ++ ")", "translated").

(** What the [except] clauses of lines 114-119 make of an exception that
    leaves the [try] body. *)
Definition reraised (e : exn) : exn :=
  if isinstance e TranscriptsDisabled then
    Exn Exception "Transcripts are disabled for this video"
  else if isinstance e VideoUnavailable then
    Exn Exception "Video is unavailable"
  else if isinstance e NoTranscriptFound then
    Exn Exception "No transcript found for this video"
  else e.

Module Edge.

(** Manual English tracks whose fetch raises. *)
Definition en_manual_unfetchable :=
  mkTranscript "en" false (Raise (Exn RequestFailed "request to YouTube failed"))
               Sample.not_translatable.
Definition en_manual_missing :=
  mkTranscript "en" false (Raise (Exn NoTranscriptFound "no transcript"))
               Sample.not_translatable.

(** What [urlparse] gives on three more URLs; the third makes it raise. *)
Definition urlparse (url : string) : result ParseResult :=
  if String.eqb url "https://youtu.be/dQw4w9WgXcQ/" then
    Ok (mkParseResult "https" "youtu.be" "/dQw4w9WgXcQ/" "" "" "")
  else if String.eqb url "https://www.youtube.com/embed/dQw4w9WgXcQ" then
    Ok (mkParseResult "https" "www.youtube.com" "/embed/dQw4w9WgXcQ" "" "" "")
  else if String.eqb url "http://[" then
    Raise (Exn ValueError "Invalid IPv6 URL")
  else Sample.urlparse url.

End Edge.

(** * Properties *)

Ltac decide_now := apply (bool_decide_unpack _); vm_compute; exact I.

(** ** format_timestamp *)

Section Timestamps.

Lemma Qfloor_div_pos (q : Q) (p : positive) :
  Qfloor (q / inject_Z (Zpos p)) = Qfloor q / Zpos p.
Proof.
  destruct q as [a b]. unfold Qdiv, Qinv, Qmult, Qfloor, inject_Z. simpl.
  rewrite Z.mul_1_r, Pos2Z.inj_mul. symmetry. apply Z.div_div; lia.
Qed.

Lemma Qfloor_sub_mul (q : Q) (p : positive) (k : Z) :
  Qfloor (q - inject_Z (Zpos p) * inject_Z k) = Qfloor q - Zpos p * k.
Proof.
  destruct q as [a b]. unfold Qminus, Qplus, Qopp, Qmult, Qfloor, inject_Z. simpl.
  rewrite Z.mul_1_r, Pos.mul_1_r.
  replace (a + - (Z.pos p * k) * Z.pos b) with (a + (- (Z.pos p * k)) * Z.pos b) by lia.
  rewrite Z.div_add by lia. lia.
Qed.

Lemma Qfloor_pymod (q : Q) (p : positive) :
  Qfloor (pymod q (inject_Z (Zpos p))) = Qfloor q mod Zpos p.
Proof.
  unfold pymod. rewrite Qfloor_sub_mul, Qfloor_div_pos.
  rewrite Z.mod_eq by lia. reflexivity.
Qed.

Lemma int_inject_Z (z : Z) : int_ (inject_Z z) = z.
Proof.
  unfold int_. destruct (Qle_bool 0 (inject_Z z)).
  - apply Qfloor_Z.
  - apply Qceiling_Z.
Qed.

(** The remainder of a positive divisor is never negative, so [int]
    rounds it down. *)
Lemma pymod_nonneg (q : Q) (p : positive) :
  Qle_bool 0 (pymod q (inject_Z (Zpos p))) = true.
Proof.
  apply Qle_bool_iff. unfold pymod.
  assert (H := Qfloor_le (q / inject_Z (Zpos p))).
  assert (Hp : (0 < inject_Z (Zpos p))%Q) by (unfold Qlt, inject_Z; simpl; lia).
  apply (Qmult_le_l _ _ _ Hp) in H.
  rewrite Qmult_div_r in H by (intros E; rewrite E in Hp; inversion Hp).
  rewrite <- (Qplus_opp_r (inject_Z (Z.pos p) * inject_Z (Qfloor (q / inject_Z (Z.pos p))))).
  unfold Qminus. apply Qplus_le_l. exact H.
Qed.

Lemma int_pymod (q : Q) (p : positive) :
  int_ (pymod q (inject_Z (Zpos p))) = Qfloor q mod Zpos p.
Proof. unfold int_. rewrite pymod_nonneg. apply Qfloor_pymod. Qed.

Lemma fmt_02d_two_digits (n : Z) : 0 <= n < 100 -> fmt_02d n = two_digits n.
Proof.
  intros Hn.
  assert (Hall : forallb (fun k => String.eqb (fmt_02d k) (two_digits k)) (seqZ 0 100) = true)
    by (vm_compute; reflexivity).
  rewrite forallb_forall in Hall.
  apply String.eqb_eq, Hall, list_elem_of_In, elem_of_seqZ. lia.
Qed.

(** The three fields, read off the whole number of seconds. *)
Lemma format_timestamp_fields (seconds : Q) :
  format_timestamp seconds =
    let total := Qfloor seconds in
    if 0 <? total / 3600
    then fmt_02d (total / 3600) ++ ":" ++ fmt_02d (total / 60 mod 60)
         ++ ":" ++ fmt_02d (total mod 60)
    else fmt_02d (total / 60 mod 60) ++ ":" ++ fmt_02d (total mod 60).
Proof.
  unfold format_timestamp, floordiv.
  rewrite !int_inject_Z.
  change (3600%Q) with (inject_Z (Zpos 3600)).
  change (60%Q) with (inject_Z (Zpos 60)).
  rewrite !Qfloor_div_pos, Qfloor_pymod, int_pymod.
  cbv zeta.
  replace (Qfloor seconds mod 3600 / 60) with (Qfloor seconds / 60 mod 60); [reflexivity|].
  set (t := Qfloor seconds).
  rewrite (Z.mod_eq t 3600), (Z.mod_eq (t / 60) 60) by lia.
  rewrite Z.div_div by lia. change (60 * 60) with 3600.
  replace (t - 3600 * (t / 3600)) with (t + (- (60 * (t / 3600))) * 60) by lia.
  rewrite Z.div_add by lia. lia.
Qed.

Lemma Qfloor_bounds (seconds : Q) :
  (0 <= seconds)%Q ->
  0 <= Qfloor seconds /\
  ((seconds < 3600)%Q -> Qfloor seconds < 3600) /\
  ((3600 <= seconds)%Q -> 3600 <= Qfloor seconds).
Proof.
  intros H0. split; [|split].
  - rewrite <- (Qfloor_Z 0). by apply Qfloor_resp_le.
  - intros Hlt. rewrite Zlt_Qlt. eapply Qle_lt_trans; [apply Qfloor_le | exact Hlt].
  - intros Hge. rewrite <- (Qfloor_Z 3600). by apply Qfloor_resp_le.
Qed.

(** C8, as stated, fails at one hundred hours: 360000 seconds are
    rendered as 100:00:00, nine characters, the hours field having
    three. *)
Lemma two_character_fields_fail : ~ two_character_fields_always.
Proof.
  intros H.
  assert (H0 : (0 <= 360000)%Q) by (vm_compute; discriminate).
  assert (H1 : (3600 <= 360000)%Q) by (vm_compute; discriminate).
  destruct (proj2 (H 360000%Q H0) H1) as (hh & mm & ss & Hf & Hh & Hm & Hs).
  change (format_timestamp 360000) with "100:00:00" in Hf.
  destruct hh as [|h1 [|h2 [|h3 hh]]]; try discriminate Hh.
  discriminate Hf.
Qed.

(** C8, as amended.  A number of seconds from 0 up to one hundred hours
    (360000 not included) is rendered as MM:SS below one hour and as
    HH:MM:SS from one hour on, every field being two zero-padded digits.
    65 seconds give 01:05 and 3725 seconds give 01:02:05.  At 360000
    seconds the output is 100:00:00: the hours field is padded to two
    digits, not cut to them. *)
Theorem format_timestamp_below_100_hours (seconds : Q) :
  (0 <= seconds)%Q -> (seconds < 360000)%Q ->
  let total := Qfloor seconds in
  let hh := total / 3600 in
  let mm := total / 60 mod 60 in
  let ss := total mod 60 in
  (0 <= hh < 100 /\ 0 <= mm < 60 /\ 0 <= ss < 60) /\
  ((seconds < 3600)%Q ->
     format_timestamp seconds = two_digits mm ++ ":" ++ two_digits ss) /\
  ((3600 <= seconds)%Q ->
     format_timestamp seconds =
       two_digits hh ++ ":" ++ two_digits mm ++ ":" ++ two_digits ss) /\
  format_timestamp 65 = "01:05" /\
  format_timestamp 3725 = "01:02:05" /\
  format_timestamp 360000 = "100:00:00".
Proof.
  intros H0 H100 total hh mm ss.
  destruct (Qfloor_bounds seconds H0) as (Hnn & Hlt & Hge). fold total in Hnn, Hlt, Hge.
  assert (Htop : total < 360000).
  { unfold total. rewrite Zlt_Qlt.
    eapply Qle_lt_trans; [apply Qfloor_le | exact H100]. }
  assert (Bh : 0 <= hh < 100).
  { unfold hh. split; [apply Z.div_pos | apply Z.div_lt_upper_bound]; lia. }
  assert (Bm : 0 <= mm < 60) by (unfold mm; apply Z.mod_pos_bound; lia).
  assert (Bs : 0 <= ss < 60) by (unfold ss; apply Z.mod_pos_bound; lia).
  split; [done|].
  rewrite format_timestamp_fields. cbv zeta. fold total. fold hh mm ss.
  rewrite (fmt_02d_two_digits mm), (fmt_02d_two_digits ss), (fmt_02d_two_digits hh) by lia.
  split; [|split; [|repeat split; reflexivity]].
  - intros H. specialize (Hlt H).
    assert (Hh : hh = 0) by (unfold hh; apply Z.div_small; lia).
    by rewrite Hh.
  - intros H. specialize (Hge H).
    assert (Hh : 0 < hh) by (unfold hh; apply Z.div_str_pos; lia).
    apply Z.ltb_lt in Hh. by rewrite Hh.
Qed.

Lemma format_timestamp_below_100_hours_witness :
  format_timestamp (7199 # 2) = "59:59" /\ format_timestamp (7451 # 2) = "01:02:05".
Proof.
  assert (H1 : (0 <= 7199 # 2)%Q) by (vm_compute; discriminate).
  assert (H2 : (0 <= 7451 # 2)%Q) by (vm_compute; discriminate).
  assert (H3 : (7199 # 2 < 360000)%Q) by (vm_compute; reflexivity).
  assert (H4 : (7451 # 2 < 360000)%Q) by (vm_compute; reflexivity).
  split.
  - apply (proj1 (proj2 (format_timestamp_below_100_hours (7199 # 2) H1 H3))).
    vm_compute; reflexivity.
  - apply (proj1 (proj2 (proj2 (format_timestamp_below_100_hours (7451 # 2) H2 H4)))).
    vm_compute; discriminate.
Defined.

End Timestamps.

(** ** The preference search *)

Section Search.

Context (g : bool) (tl : TranscriptList).

Lemma find_matching_None (code : string) :
  List.find (fun t => Bool.eqb (is_generated t) g && String.eqb (language_code t) code) tl
    = None <->
  Forall (fun t => is_generated t = g -> language_code t <> code) tl.
Proof.
  induction tl as [|t l IH]; simpl.
  - split; [constructor | reflexivity].
  - destruct (Bool.eqb_spec (is_generated t) g) as [Hg|Hg];
      destruct (String.eqb_spec (language_code t) code) as [Hc|Hc]; simpl.
    + split; [discriminate | intros H; inversion H; subst; tauto].
    + rewrite IH. split; [intros H; constructor; auto | intros H; inversion H; auto].
    + rewrite IH. split; [intros H; constructor; tauto | intros H; inversion H; auto].
    + rewrite IH. split; [intros H; constructor; tauto | intros H; inversion H; auto].
Qed.

(** The track found is the first of its kind and code in catalog order. *)
Lemma find_matching_Some (code : string) (t : Transcript) :
  List.find (fun t => Bool.eqb (is_generated t) g && String.eqb (language_code t) code) tl
    = Some t ->
  exists l1 l2 : TranscriptList,
    tl = (l1 ++ t :: l2)%list /\
    Forall (fun x => is_generated x = g -> language_code x <> code) l1 /\
    is_generated t = g /\ language_code t = code.
Proof.
  induction tl as [|x l IH]; simpl; [discriminate|].
  destruct (Bool.eqb_spec (is_generated x) g) as [Hg|Hg];
    destruct (String.eqb_spec (language_code x) code) as [Hc|Hc]; simpl.
  - intros [= ->]. by exists [], l.
  - intros H. destruct (IH H) as (l1 & l2 & -> & Hl1 & Ht).
    exists (x :: l1), l2. split; [done|]. split; [|done]. constructor; auto.
  - intros H. destruct (IH H) as (l1 & l2 & -> & Hl1 & Ht).
    exists (x :: l1), l2. split; [done|]. split; [|done]. constructor; tauto.
  - intros H. destruct (IH H) as (l1 & l2 & -> & Hl1 & Ht).
    exists (x :: l1), l2. split; [done|]. split; [|done]. constructor; tauto.
Qed.

(** No track of the kind carries a listed code: the search raises
    [NoTranscriptFound]. *)
Lemma _find_transcript_raises (langs : list string) :
  Forall (fun t => is_generated t = g -> language_code t ∉ langs) tl ->
  exists m, _find_transcript g tl langs = Raise (Exn NoTranscriptFound m).
Proof.
  induction langs as [|code rest IH]; intros H; simpl.
  - eauto.
  - assert (Hnone : List.find (fun t => Bool.eqb (is_generated t) g
                                  && String.eqb (language_code t) code) tl = None).
    { apply find_matching_None. eapply Forall_impl; [exact H|].
      intros t Ht Hg Heq. apply (Ht Hg). rewrite Heq. left. }
    rewrite Hnone. apply IH. eapply Forall_impl; [exact H|].
    intros t Ht Hg Hin. apply (Ht Hg). by right.
Qed.

(** Some track of the kind carries a listed code: the search returns the
    first track in catalog order that carries the first listed code any
    track of the kind carries. *)
Lemma _find_transcript_first (langs : list string) :
  Exists (fun t => is_generated t = g /\ language_code t ∈ langs) tl ->
  exists before code after (l1 : TranscriptList) transcript l2,
    langs = (before ++ code :: after)%list /\
    Forall (fun t => is_generated t = g -> language_code t ∉ before) tl /\
    tl = (l1 ++ transcript :: l2)%list /\
    Forall (fun t => is_generated t = g -> language_code t <> code) l1 /\
    is_generated transcript = g /\ language_code transcript = code /\
    _find_transcript g tl langs = Ok transcript.
Proof.
  induction langs as [|code rest IH]; intros H.
  - exfalso. apply Exists_exists in H as (t & _ & _ & Hin). inversion Hin.
  - simpl.
    destruct (List.find _ tl) as [t|] eqn:Hfind.
    + apply find_matching_Some in Hfind as (l1 & l2 & Htl & Hl1 & Hg & Hc).
      exists [], code, rest, l1, t, l2. split; [done|]. split; [|done].
      apply Forall_forall. intros x _ _ Hx. inversion Hx.
    + apply find_matching_None in Hfind.
      destruct IH as (before & c & after & l1 & t & l2 & -> & Hb & Hrest).
      { apply Exists_exists in H as (t & Hin & Hg & Hl).
        apply Exists_exists. exists t. repeat split; try done.
        apply elem_of_cons in Hl as [Heq|Hl]; [|done].
        rewrite Forall_forall in Hfind. by destruct (Hfind t Hin Hg). }
      exists (code :: before), c, after, l1, t, l2. split; [done|]. split; [|done].
      apply Forall_forall. intros x Hx Hxg Hxin.
      rewrite Forall_forall in Hfind, Hb.
      apply elem_of_cons in Hxin as [Heq|Hxin].
      * by apply (Hfind x Hx Hxg).
      * by apply (Hb x Hx Hxg).
Qed.

End Search.

(** ** The scan loop *)

Lemma loop_body_english (t : Transcript) :
  startswith (language_code t) "en" = true ->
  loop_body t =
    (segments ← fetch t; Ok (segments, language_code t, transcript_type_of t)).
Proof. intros Hen. unfold loop_body. by rewrite Hen. Qed.

Lemma loop_body_translate_raises (t : Transcript) (e : exn) :
  startswith (language_code t) "en" = false ->
  translate t "en" = Raise e ->
  loop_body t = Raise e.
Proof. intros Hen Htr. unfold loop_body. by rewrite Hen, Htr. Qed.

Lemma for_loop_skip (before rest : TranscriptList) :
  Forall (fun t => exists e, loop_body t = Raise e) before ->
  for_loop (before ++ rest) = for_loop rest.
Proof.
  induction 1 as [|t before [e He] _ IH]; simpl; [done|].
  by rewrite He.
Qed.

#[local] Hint Resolve loop_body_translate_raises : core.

(** C9.  Whatever exception the handling of a track raises, the loop goes
    on with the next track: a failing fetch of an English-prefixed track,
    a failing translation, a failing fetch of the translation.  So an
    English-prefixed track whose fetch fails is passed over, and a later
    track is translated in its place. *)
Theorem scan_swallows_every_exception :
  (forall transcript rest e,
     loop_body transcript = Raise e -> for_loop (transcript :: rest) = for_loop rest) /\
  (forall transcript e,
     startswith (language_code transcript) "en" = true ->
     fetch transcript = Raise e -> loop_body transcript = Raise e) /\
  (forall transcript e,
     startswith (language_code transcript) "en" = false ->
     translate transcript "en" = Raise e -> loop_body transcript = Raise e) /\
  (forall transcript translated e,
     startswith (language_code transcript) "en" = false ->
     translate transcript "en" = Ok translated ->
     fetch translated = Raise e -> loop_body transcript = Raise e) /\
  get_transcript (Sample.api_of [Sample.en_AU_unfetchable; Sample.es_manual])
                 Sample.video None =
    Ok (Sample.hi, "en (translated from es)", "translated").
Proof.
  split; [|split; [|split; [|split]]].
  - intros t rest e He. simpl. by rewrite He.
  - intros t e Hen Hf. rewrite (loop_body_english _ Hen). by rewrite Hf.
  - auto.
  - intros t t' e Hen Htr Hf. unfold loop_body. rewrite Hen, Htr. simpl. by rewrite Hf.
  - reflexivity.
Qed.

Lemma scan_swallows_witness :
  for_loop [Sample.en_AU_unfetchable; Sample.es_manual] = for_loop [Sample.es_manual].
Proof.
  apply (proj1 scan_swallows_every_exception _ _
           (Exn RequestFailed "request to YouTube failed")).
  reflexivity.
Defined.

(** ** get_transcript *)

Section Selection.

Context (ytt_api : YouTubeTranscriptApi) (video_id : string).
Context (languages : option (list string)).

Lemma get_transcript_Ok (r : Selection) :
  get_transcript_try ytt_api video_id (languages_of languages) = Ok r ->
  get_transcript ytt_api video_id languages = Ok r.
Proof. unfold get_transcript, languages_of. by intros ->. Qed.

(** With no track in the preference list, both searches raise
    [NoTranscriptFound] and the loop is reached. *)
Lemma get_transcript_try_fallback (tl : TranscriptList) :
  api_list ytt_api video_id = Ok tl ->
  Forall (fun t => language_code t ∉ languages_of languages) tl ->
  get_transcript_try ytt_api video_id (languages_of languages) = fallback tl.
Proof.
  intros Hlist Hnone. unfold get_transcript_try. rewrite Hlist. simpl.
  destruct (_find_transcript_raises false tl (languages_of languages)) as [m1 H1].
  { eapply Forall_impl; [exact Hnone | auto]. }
  destruct (_find_transcript_raises true tl (languages_of languages)) as [m2 H2].
  { eapply Forall_impl; [exact Hnone | auto]. }
  unfold find_manually_created_transcript, find_generated_transcript.
  rewrite H1, H2. reflexivity.
Qed.

(** C3.  When the catalog holds a manual track whose code is in the
    preference list, the choice falls on the first code of the list that
    a manual track carries (earlier codes are carried by no manual track)
    and on the first manual track of the catalog with that code; that
    track being fetched, the result is its segments with that code and
    the kind manual. *)
Theorem manual_preferred (transcript_list : TranscriptList) :
  api_list ytt_api video_id = Ok transcript_list ->
  Exists (fun t => is_generated t = false /\ language_code t ∈ languages_of languages)
         transcript_list ->
  exists (before : list string) code after (l1 : TranscriptList) transcript l2,
    languages_of languages = (before ++ code :: after)%list /\
    Forall (fun t => is_generated t = false -> language_code t ∉ before) transcript_list /\
    transcript_list = (l1 ++ transcript :: l2)%list /\
    Forall (fun t => is_generated t = false -> language_code t <> code) l1 /\
    is_generated transcript = false /\
    language_code transcript = code /\
    forall segments, fetch transcript = Ok segments ->
      get_transcript ytt_api video_id languages = Ok (segments, code, "manual").
Proof.
  intros Hlist Hex.
  destruct (_find_transcript_first false _ _ Hex)
    as (before & code & after & l1 & t & l2 & Hl & Hb & Htl & Hl1 & Hg & Hc & Hf).
  exists before, code, after, l1, t, l2. do 6 (split; [done|]).
  intros segments Hfetch. apply get_transcript_Ok.
  unfold get_transcript_try, find_manually_created_transcript.
  rewrite Hlist. simpl. rewrite Hf. simpl. rewrite Hfetch. simpl. by rewrite Hc.
Qed.

(** C6.  When no manual track has its code in the preference list and a
    generated track has, the same search among the generated tracks
    decides (first listed code a generated track carries, first generated
    track of the catalog with that code): the result is that generated
    track, fetched, with the kind auto-generated. *)
Theorem auto_preferred (transcript_list : TranscriptList) :
  api_list ytt_api video_id = Ok transcript_list ->
  Forall (fun t => is_generated t = false -> language_code t ∉ languages_of languages)
         transcript_list ->
  Exists (fun t => is_generated t = true /\ language_code t ∈ languages_of languages)
         transcript_list ->
  exists (before : list string) code after (l1 : TranscriptList) transcript l2,
    languages_of languages = (before ++ code :: after)%list /\
    Forall (fun t => is_generated t = true -> language_code t ∉ before) transcript_list /\
    transcript_list = (l1 ++ transcript :: l2)%list /\
    Forall (fun t => is_generated t = true -> language_code t <> code) l1 /\
    is_generated transcript = true /\
    language_code transcript = code /\
    forall segments, fetch transcript = Ok segments ->
      get_transcript ytt_api video_id languages = Ok (segments, code, "auto-generated").
Proof.
  intros Hlist Hnone Hex.
  destruct (_find_transcript_first true _ _ Hex)
    as (before & code & after & l1 & t & l2 & Hl & Hb & Htl & Hl1 & Hg & Hc & Hf).
  destruct (_find_transcript_raises false _ _ Hnone) as [m Hm].
  exists before, code, after, l1, t, l2. do 6 (split; [done|]).
  intros segments Hfetch. apply get_transcript_Ok.
  unfold get_transcript_try, find_manually_created_transcript, find_generated_transcript.
  rewrite Hlist. simpl. rewrite Hm. simpl. rewrite Hf. simpl. rewrite Hfetch. simpl.
  by rewrite Hc.
Qed.

(** C1, as amended.  Steps 3 and 4 are one pass over the catalog.  With
    no track in the preference list, take a track before which every
    track is not English-prefixed and fails to be translated and fetched.
    If it is English-prefixed it is returned untranslated, with the kind
    its [is_generated] flag gives.  If it is not and its translation
    succeeds, it is returned translated, whatever follows it in the
    catalog, English-prefixed tracks included. *)
Theorem english_scan_single_pass (before after : TranscriptList) transcript segments :
  api_list ytt_api video_id = Ok (before ++ transcript :: after)%list ->
  Forall (fun t => language_code t ∉ languages_of languages)
         (before ++ transcript :: after)%list ->
  Forall (fun t => startswith (language_code t) "en" = false /\
                   exists e, (translate t "en" ≫= fetch) = Raise e) before ->
  (startswith (language_code transcript) "en" = true ->
   fetch transcript = Ok segments ->
   get_transcript ytt_api video_id languages =
     Ok (segments, language_code transcript,
         if is_generated transcript then "auto-generated" else "manual")) /\
  (startswith (language_code transcript) "en" = false ->
   (translate transcript "en" ≫= fetch) = Ok segments ->
   get_transcript ytt_api video_id languages =
     Ok (segments, "en (translated from " ++ language_code transcript ++ ")",
         "translated")).
Proof.
  intros Hlist Hnone Hfail.
  assert (Hskip : for_loop (before ++ transcript :: after)%list
                  = for_loop (transcript :: after)).
  { apply for_loop_skip. eapply Forall_impl; [exact Hfail|]. intros t [Ht [e He]].
    exists e. unfold loop_body. rewrite Ht.
    destruct (translate t "en") as [t'|e']; simpl in *.
    - destruct (fetch t'); simpl in *; congruence.
    - congruence. }
  split.
  - intros Hen Hfetch. apply get_transcript_Ok.
    rewrite (get_transcript_try_fallback _ Hlist Hnone).
    unfold fallback. rewrite Hskip. simpl.
    rewrite (loop_body_english _ Hen), Hfetch. reflexivity.
  - intros Hen Htr. apply get_transcript_Ok.
    rewrite (get_transcript_try_fallback _ Hlist Hnone).
    unfold fallback. rewrite Hskip. simpl. unfold loop_body. rewrite Hen.
    destruct (translate transcript "en") as [t'|e']; simpl in *; [|discriminate].
    destruct (fetch t'); simpl in *; [|discriminate].
    by injection Htr as ->.
Qed.

(** C4.  With no track in the preference list and no English-prefixed
    track, the tracks whose translation raises are skipped and the loop
    goes on; the first track in catalog order whose translation does not
    raise is the one returned, translated, under the language
    en (translated from CODE) and the kind translated. *)
Theorem translate_first_success (before after : TranscriptList)
    transcript translated segments :
  api_list ytt_api video_id = Ok (before ++ transcript :: after)%list ->
  Forall (fun t => language_code t ∉ languages_of languages)
         (before ++ transcript :: after)%list ->
  Forall (fun t => startswith (language_code t) "en" = false)
         (before ++ transcript :: after)%list ->
  Forall (fun t => exists e, translate t "en" = Raise e) before ->
  translate transcript "en" = Ok translated ->
  fetch translated = Ok segments ->
  for_loop (before ++ transcript :: after)%list = for_loop (transcript :: after) /\
  get_transcript ytt_api video_id languages =
    Ok (segments, "en (translated from " ++ language_code transcript ++ ")", "translated").
Proof.
  intros Hlist Hnone Hen Hfail Htr Hfetch.
  assert (Hskip : for_loop (before ++ transcript :: after)%list
                  = for_loop (transcript :: after)).
  { apply for_loop_skip. apply Forall_forall. intros t Ht.
    rewrite Forall_forall in Hfail, Hen. destruct (Hfail t Ht) as [e He].
    exists e. apply loop_body_translate_raises; [|done].
    apply Hen. apply elem_of_app. by left. }
  split; [done|]. apply get_transcript_Ok.
  rewrite (get_transcript_try_fallback _ Hlist Hnone).
  unfold fallback. rewrite Hskip. simpl. unfold loop_body.
  rewrite Forall_forall in Hen. rewrite (Hen transcript).
  - by rewrite Htr; simpl; rewrite Hfetch.
  - apply elem_of_app. right. left.
Qed.

(** C5.  With no track in the preference list and no English-prefixed
    track, when the translation of every track raises and the catalog is
    not empty, the first track in catalog order is returned untranslated:
    its own code, and auto-generated or manual after its own flag. *)
Theorem last_resort_first_track transcript (rest : TranscriptList) segments :
  api_list ytt_api video_id = Ok (transcript :: rest) ->
  Forall (fun t => language_code t ∉ languages_of languages) (transcript :: rest) ->
  Forall (fun t => startswith (language_code t) "en" = false) (transcript :: rest) ->
  Forall (fun t => exists e, translate t "en" = Raise e) (transcript :: rest) ->
  fetch transcript = Ok segments ->
  get_transcript ytt_api video_id languages =
    Ok (segments, language_code transcript,
        if is_generated transcript then "auto-generated" else "manual").
Proof.
  intros Hlist Hnone Hen Hfail Hfetch.
  apply get_transcript_Ok.
  rewrite (get_transcript_try_fallback _ Hlist Hnone).
  unfold fallback.
  assert (Hloop : for_loop (transcript :: rest) = None).
  { rewrite <- (app_nil_r (transcript :: rest)). apply (for_loop_skip _ []).
    apply Forall_forall. intros t Ht.
    rewrite Forall_forall in Hfail, Hen. destruct (Hfail t Ht) as [e He].
    exists e. auto. }
  rewrite Hloop. simpl. by rewrite Hfetch.
Qed.

(** C2, on the code.  On an empty catalog both searches raise
    [NoTranscriptFound], the loop has nothing to do, and
    [next(iter(transcript_list))] raises [StopIteration], which no
    [except] clause of [get_transcript] names: it leaves the function as
    it is, not as the error for a missing transcript. *)
Theorem empty_catalog_StopIteration :
  api_list ytt_api video_id = Ok [] ->
  get_transcript ytt_api video_id languages = Raise (Exn StopIteration "").
Proof.
  intros Hlist. unfold get_transcript.
  change (default default_languages languages) with (languages_of languages).
  rewrite (get_transcript_try_fallback [] Hlist); [reflexivity | constructor].
Qed.

End Selection.

(** *** Instances on the sample catalogs *)

Import Sample.

Lemma manual_preferred_witness :
  exists (before : list string) code after (l1 : TranscriptList) transcript l2,
    languages_of None = (before ++ code :: after)%list /\
    Forall (fun t => is_generated t = false -> language_code t ∉ before)
           [es_manual; en_generated; en_US_manual] /\
    [es_manual; en_generated; en_US_manual] = (l1 ++ transcript :: l2)%list /\
    Forall (fun t => is_generated t = false -> language_code t <> code) l1 /\
    is_generated transcript = false /\
    language_code transcript = code /\
    forall segments, fetch transcript = Ok segments ->
      get_transcript (api_of [es_manual; en_generated; en_US_manual]) video None
        = Ok (segments, code, "manual").
Proof.
  apply manual_preferred; [reflexivity|].
  do 2 apply Exists_cons_tl. apply Exists_cons_hd.
  split; [reflexivity | repeat constructor].
Defined.

Lemma auto_preferred_witness :
  exists (before : list string) code after (l1 : TranscriptList) transcript l2,
    languages_of None = (before ++ code :: after)%list /\
    Forall (fun t => is_generated t = true -> language_code t ∉ before)
           [en_AU_manual; en_generated] /\
    [en_AU_manual; en_generated] = (l1 ++ transcript :: l2)%list /\
    Forall (fun t => is_generated t = true -> language_code t <> code) l1 /\
    is_generated transcript = true /\
    language_code transcript = code /\
    forall segments, fetch transcript = Ok segments ->
      get_transcript (api_of [en_AU_manual; en_generated]) video None
        = Ok (segments, code, "auto-generated").
Proof.
  apply auto_preferred; [reflexivity | |].
  - repeat constructor; [decide_now | discriminate].
  - apply Exists_cons_tl, Exists_cons_hd.
    split; [reflexivity | repeat constructor].
Defined.

(** C1, as stated, fails on the catalog [es; en-AU]: the Spanish track
    comes first, its translation succeeds, and it is returned translated
    although an English-prefixed track follows. *)
Lemma english_scan_before_translation_fails : ~ english_scan_before_translation.
Proof.
  intros H.
  specialize (H (api_of [es_manual; en_AU_manual]) video None
                [es_manual; en_AU_manual] en_AU_manual hello eq_refl).
  assert (Hres : get_transcript (api_of [es_manual; en_AU_manual]) video None
                 = Ok (hi, "en (translated from es)", "translated")) by reflexivity.
  rewrite Hres in H.
  assert (Habs : @Ok Selection (hi, "en (translated from es)", "translated")
                 = Ok (hello, "en-AU", "manual")).
  { apply H; [decide_now | reflexivity | reflexivity]. }
  discriminate Habs.
Qed.

Lemma english_scan_single_pass_witness :
  get_transcript (api_of [de_manual; en_AU_manual; es_manual]) video None =
    Ok (hello, "en-AU", "manual") /\
  get_transcript (api_of [de_manual; es_manual; en_AU_manual]) video None =
    Ok (hi, "en (translated from es)", "translated").
Proof.
  split.
  - apply (english_scan_single_pass (api_of [de_manual; en_AU_manual; es_manual]) video None
             [de_manual] [es_manual] en_AU_manual hello).
    + reflexivity.
    + decide_now.
    + constructor; [|constructor]. split; [reflexivity|]. eexists. reflexivity.
    + reflexivity.
    + reflexivity.
  - apply (english_scan_single_pass (api_of [de_manual; es_manual; en_AU_manual]) video None
             [de_manual] [en_AU_manual] es_manual hi).
    + reflexivity.
    + decide_now.
    + constructor; [|constructor]. split; [reflexivity|]. eexists. reflexivity.
    + reflexivity.
    + reflexivity.
Defined.

Lemma translate_first_success_witness :
  for_loop [de_manual; es_manual; fr_generated] = for_loop [es_manual; fr_generated] /\
  get_transcript (api_of [de_manual; es_manual; fr_generated]) video None =
    Ok (hi, "en (translated from es)", "translated").
Proof.
  apply (translate_first_success (api_of [de_manual; es_manual; fr_generated]) video None
           [de_manual] [fr_generated] es_manual
           (mkTranscript "en" true (Ok hi) not_translatable) hi).
  - reflexivity.
  - decide_now.
  - repeat constructor.
  - constructor; [|constructor]. eexists. reflexivity.
  - reflexivity.
  - reflexivity.
Defined.

Lemma last_resort_first_track_witness :
  get_transcript (api_of [fr_generated; de_manual]) video None =
    Ok (bonjour, "fr", "auto-generated").
Proof.
  apply (last_resort_first_track (api_of [fr_generated; de_manual]) video None
           fr_generated [de_manual] bonjour).
  - reflexivity.
  - decide_now.
  - repeat constructor.
  - repeat constructor; eexists; reflexivity.
  - reflexivity.
Defined.

Lemma empty_catalog_witness :
  get_transcript (api_of []) video None = Raise (Exn StopIteration "").
Proof. apply empty_catalog_StopIteration. reflexivity. Defined.

(** ** Errors *)

Section TranslationErrors.

Context (f : exn -> exn).

Lemma find_with_translate_error (g : bool) (code : string) (tl : TranscriptList) :
  List.find (fun t => Bool.eqb (is_generated t) g && String.eqb (language_code t) code)
            (map (with_translate_error f) tl) =
  with_translate_error f <$>
    List.find (fun t => Bool.eqb (is_generated t) g && String.eqb (language_code t) code) tl.
Proof.
  induction tl as [|t tl IH]; simpl; [done|].
  destruct (Bool.eqb (is_generated t) g && String.eqb (language_code t) code); [done|].
  exact IH.
Qed.

Lemma _find_with_translate_error (g : bool) (tl : TranscriptList) (langs : list string) :
  _find_transcript g (map (with_translate_error f) tl) langs =
  match _find_transcript g tl langs with
  | Ok t => Ok (with_translate_error f t)
  | Raise e => Raise e
  end.
Proof.
  induction langs as [|code rest IH]; simpl; [done|].
  rewrite find_with_translate_error.
  destruct (List.find _ tl); simpl; [done | exact IH].
Qed.

Lemma for_loop_with_translate_error (tl : TranscriptList) :
  for_loop (map (with_translate_error f) tl) = for_loop tl.
Proof.
  induction tl as [|t tl IH]; simpl; [done|].
  unfold loop_body. simpl.
  destruct (startswith (language_code t) "en").
  - destruct (fetch t); simpl; [done | exact IH].
  - destruct (translate t "en") as [t'|e]; simpl; [|exact IH].
    destruct (fetch t'); simpl; [done | exact IH].
Qed.

Lemma search_step_with_translate_error (g : bool) (tl : TranscriptList)
    (langs : list string) (kind : string) (rest rest' : result Selection) :
  rest = rest' ->
  try_pass NoTranscriptFound
    (transcript ← _find_transcript g tl langs;
     segments ← fetch transcript;
     Ok (segments, language_code transcript, kind)) rest =
  try_pass NoTranscriptFound
    (transcript ← match _find_transcript g tl langs with
                  | Ok t => Ok (with_translate_error f t)
                  | Raise e => Raise e
                  end;
     segments ← fetch transcript;
     Ok (segments, language_code transcript, kind)) rest'.
Proof. intros ->. by destruct (_find_transcript g tl langs). Qed.

Lemma get_transcript_try_with_translate_error ytt_api ytt_api' video_id langs
    (tl : TranscriptList) :
  api_list ytt_api video_id = Ok tl ->
  api_list ytt_api' video_id = Ok (map (with_translate_error f) tl) ->
  get_transcript_try ytt_api video_id langs = get_transcript_try ytt_api' video_id langs.
Proof.
  intros H1 H2. unfold get_transcript_try. rewrite H1, H2. simpl.
  unfold find_manually_created_transcript, find_generated_transcript.
  rewrite !_find_with_translate_error, for_loop_with_translate_error.
  do 2 apply search_step_with_translate_error.
  destruct (for_loop tl); [done|]. by destruct tl.
Qed.

End TranslationErrors.

(** ** extract_video_id *)

(** The reading does not hold of the code: a youtube.com /watch URL
    without a [v] parameter that contains youtu.be is taken for a short
    link by the first test of the function, and its path, stripped, is
    returned. *)
Lemma identity_and_missing_v_fails : ~ identity_and_missing_v.
Proof.
  intros [_ H].
  specialize (H urlparse parse_qs "https://www.youtube.com/watch?feature=youtu.be" _
                eq_refl eq_refl eq_refl eq_refl).
  vm_compute in H. discriminate H.
Qed.

(** Where the code does what is expected of it.  On a string that does
    not contain youtu.be: when the network location does not contain
    youtube.com the string is returned unchanged, and when it does, the
    path contains /watch and the query string has no [v] parameter,
    [None] is returned and nothing is raised. *)
Theorem extract_video_id_identity_and_missing_v
    (urlparse : string -> result ParseResult)
    (parse_qs : string -> gmap string (list string))
    (youtube_url : string) (parsed : ParseResult) :
  contains "youtu.be" youtube_url = false ->
  urlparse youtube_url = Ok parsed ->
  (contains "youtube.com" (netloc parsed) = false ->
   extract_video_id urlparse parse_qs youtube_url = Ok (Some youtube_url)) /\
  (contains "youtube.com" (netloc parsed) = true ->
   contains "/watch" (path parsed) = true ->
   parse_qs (query parsed) !! "v" = None ->
   extract_video_id urlparse parse_qs youtube_url = Ok None).
Proof.
  intros Hshort Hparse. unfold extract_video_id. rewrite Hshort, Hparse. simpl.
  split.
  - by intros ->.
  - by intros -> -> ->.
Qed.

Lemma extract_video_id_witness :
  extract_video_id urlparse parse_qs video = Ok (Some video) /\
  extract_video_id urlparse parse_qs "https://www.youtube.com/watch?list=PL1" = Ok None.
Proof.
  split.
  - apply (extract_video_id_identity_and_missing_v urlparse parse_qs
             video _ eq_refl eq_refl). reflexivity.
  - apply (extract_video_id_identity_and_missing_v urlparse parse_qs
             "https://www.youtube.com/watch?list=PL1" _ eq_refl eq_refl); reflexivity.
Defined.

(** C10, on the code.  The test for short links looks for youtu.be
    anywhere in the URL, so a youtube.com /watch URL that contains it (in
    its query string, say) never reaches the /watch branch: without a
    [v] parameter the function returns the path stripped of its slashes,
    not [None]. *)
Theorem watch_url_taken_for_short_link
    (urlparse : string -> result ParseResult)
    (parse_qs : string -> gmap string (list string))
    (youtube_url : string) (parsed : ParseResult) :
  contains "youtu.be" youtube_url = true ->
  urlparse youtube_url = Ok parsed ->
  contains "youtube.com" (netloc parsed) = true ->
  contains "/watch" (path parsed) = true ->
  parse_qs (query parsed) !! "v" = None ->
  extract_video_id urlparse parse_qs youtube_url = Ok (Some (strip_slash (path parsed))) /\
  extract_video_id urlparse parse_qs youtube_url <> Ok None.
Proof.
  intros Hshort Hparse _ _ _.
  assert (H : extract_video_id urlparse parse_qs youtube_url
              = Ok (Some (strip_slash (path parsed)))).
  { unfold extract_video_id. by rewrite Hshort, Hparse. }
  split; [exact H|]. rewrite H. discriminate.
Qed.

Lemma watch_url_taken_for_short_link_witness :
  extract_video_id urlparse parse_qs "https://www.youtube.com/watch?feature=youtu.be"
    = Ok (Some "watch") /\
  extract_video_id urlparse parse_qs "https://www.youtube.com/watch?feature=youtu.be"
    <> Ok None.
Proof.
  apply (watch_url_taken_for_short_link urlparse parse_qs
           "https://www.youtube.com/watch?feature=youtu.be"
           (mkParseResult "https" "www.youtube.com" "/watch" "" "feature=youtu.be" ""));
    reflexivity.
Defined.

(** ** The scenarios of the specification *)

Example scenario_A :
  get_transcript (api_of [es_manual]) video (Some ["en"]) =
    Ok (hi, "en (translated from es)", "translated").
Proof. reflexivity. Qed.

Example scenario_B :
  get_transcript (api_of [en_US_manual]) video (Some ["en"; "en-US"]) =
    Ok (hello, "en-US", "manual").
Proof. reflexivity. Qed.

Example scenario_D :
  get_transcript (api_of [fr_generated]) video None =
    Ok (bonjour, "fr", "auto-generated").
Proof. reflexivity. Qed.

Example empty_catalog_run :
  main urlparse parse_qs (fun s => s) "/opt/scripts" Qplus (api_of [])
       ["transcribe_youtube.py"; video] =
    mkOutcome
      ["YouTube URL: dQw4w9WgXcQ"; "Video ID: dQw4w9WgXcQ";
       newline ++ "Fetching transcript..."; "Error: "]
      None (SysExit 1).
Proof. reflexivity. Qed.

Example watch_url_id :
  extract_video_id urlparse parse_qs "https://www.youtube.com/watch?v=dQw4w9WgXcQ"
    = Ok (Some video).
Proof. reflexivity. Qed.

Example hundred_hours : format_timestamp 360000 = "100:00:00".
Proof. reflexivity. Qed.

(** * Further properties of the code *)

(** ** format_timestamp, beyond the two formats *)

(** X1.  From 0 up to one hundred hours the fraction of a second is
    dropped: a time is rendered as the whole number of seconds below
    it. *)
Theorem format_timestamp_whole_seconds (seconds : Q) :
  (0 <= seconds)%Q -> (seconds < 360000)%Q ->
  format_timestamp seconds = format_timestamp (inject_Z (Qfloor seconds)).
Proof. intros _ _. rewrite !format_timestamp_fields. by rewrite Qfloor_Z. Qed.

Lemma format_timestamp_whole_seconds_witness :
  format_timestamp (7451 # 2) = format_timestamp (inject_Z (Qfloor (7451 # 2))).
Proof.
  apply (format_timestamp_whole_seconds (7451 # 2)); vm_compute;
    [discriminate | reflexivity].
Defined.

(** The output below one hundred hours, every field two digits. *)
Lemma format_timestamp_shape (seconds : Q) :
  (0 <= seconds)%Q -> (seconds < 360000)%Q ->
  let total := Qfloor seconds in
  0 <= total < 360000 /\
  format_timestamp seconds =
    if total <? 3600
    then two_digits (total / 60 mod 60) ++ ":" ++ two_digits (total mod 60)
    else two_digits (total / 3600) ++ ":" ++ two_digits (total / 60 mod 60)
         ++ ":" ++ two_digits (total mod 60).
Proof.
  intros H0 Hlt total.
  assert (Hb : 0 <= total < 360000).
  { split.
    - rewrite <- (Qfloor_Z 0). by apply Qfloor_resp_le.
    - rewrite Zlt_Qlt. eapply Qle_lt_trans; [apply Qfloor_le | exact Hlt]. }
  split; [done|].
  rewrite format_timestamp_fields. cbv zeta. fold total.
  pose proof (Z.mod_pos_bound (total / 60) 60).
  pose proof (Z.mod_pos_bound total 60).
  rewrite (fmt_02d_two_digits (total / 60 mod 60)), (fmt_02d_two_digits (total mod 60)) by lia.
  destruct (Z.ltb_spec total 3600) as [Hs|Hs].
  - rewrite Z.div_small by lia. reflexivity.
  - assert (0 < total / 3600) by (apply Z.div_str_pos; lia).
    assert (total / 3600 < 100) by (apply Z.div_lt_upper_bound; lia).
    rewrite fmt_02d_two_digits by lia.
    destruct (Z.ltb_spec 0 (total / 3600)); [reflexivity | lia].
Qed.

(** X3.  Below one hundred hours the output has five characters under
    one hour and eight from one hour on. *)
Theorem format_timestamp_length (seconds : Q) :
  (0 <= seconds)%Q -> (seconds < 360000)%Q ->
  String.length (format_timestamp seconds) =
    if Qfloor seconds <? 3600 then 5%nat else 8%nat.
Proof.
  intros H0 Hlt. destruct (format_timestamp_shape seconds H0 Hlt) as [_ ->].
  by destruct (Qfloor seconds <? 3600).
Qed.

Lemma format_timestamp_length_witness :
  String.length (format_timestamp (7451 # 2)) = 8%nat.
Proof.
  apply (format_timestamp_length (7451 # 2)); vm_compute; [discriminate | reflexivity].
Defined.

Lemma two_digits_nat_of_ascii (n : Z) :
  0 <= n < 100 ->
  exists c1 c2, two_digits n = String c1 (String c2 "") /\
    nat_of_ascii c1 = (48 + Z.to_nat (n / 10))%nat /\
    nat_of_ascii c2 = (48 + Z.to_nat (n mod 10))%nat.
Proof.
  intros Hn. eexists _, _. split; [reflexivity|].
  unfold digit. split; apply nat_ascii_embedding.
  - assert (n / 10 < 10) by (apply Z.div_lt_upper_bound; lia).
    assert (0 <= n / 10) by (apply Z.div_pos; lia). lia.
  - pose proof (Z.mod_pos_bound n 10). lia.
Qed.

Lemma two_digits_inj (a b : Z) :
  0 <= a < 100 -> 0 <= b < 100 -> two_digits a = two_digits b -> a = b.
Proof.
  intros Ha Hb Heq.
  destruct (two_digits_nat_of_ascii a Ha) as (a1 & a2 & Ea & Ha1 & Ha2).
  destruct (two_digits_nat_of_ascii b Hb) as (b1 & b2 & Eb & Hb1 & Hb2).
  rewrite Ea, Eb in Heq. injection Heq as -> ->.
  rewrite Ha1 in Hb1. rewrite Ha2 in Hb2.
  assert (0 <= a / 10) by (apply Z.div_pos; lia).
  assert (0 <= b / 10) by (apply Z.div_pos; lia).
  pose proof (Z.mod_pos_bound a 10). pose proof (Z.mod_pos_bound b 10).
  rewrite (Z.div_mod a 10), (Z.div_mod b 10) by lia.
  assert (a / 10 = b / 10) by lia. assert (a mod 10 = b mod 10) by lia. lia.
Qed.

Lemma hms_decompose (t : Z) :
  t = t / 3600 * 3600 + (t / 60 mod 60) * 60 + t mod 60.
Proof.
  rewrite (Z.mod_eq (t / 60) 60) by lia. rewrite Z.div_div by lia.
  change (60 * 60) with 3600.
  pose proof (Z.div_mod t 60). pose proof (Z.div_mod (t/60) 60).
  rewrite Z.div_div in * by lia. change (60 * 60) with 3600 in *.
  rewrite (Z.mod_eq t 60) by lia. lia.
Qed.

(** X4.  Below one hundred hours the rendering loses nothing but the
    fraction: two times rendered alike have the same whole number of
    seconds. *)
Theorem format_timestamp_injective (a b : Q) :
  (0 <= a)%Q -> (a < 360000)%Q -> (0 <= b)%Q -> (b < 360000)%Q ->
  format_timestamp a = format_timestamp b ->
  Qfloor a = Qfloor b.
Proof.
  intros Ha0 Ha1 Hb0 Hb1.
  destruct (format_timestamp_shape a Ha0 Ha1) as [Ba ->].
  destruct (format_timestamp_shape b Hb0 Hb1) as [Bb ->].
  set (s := Qfloor a) in *. set (t := Qfloor b) in *.
  pose proof (Z.mod_pos_bound (s / 60) 60). pose proof (Z.mod_pos_bound s 60).
  pose proof (Z.mod_pos_bound (t / 60) 60). pose proof (Z.mod_pos_bound t 60).
  assert (0 <= s / 3600 < 100) by (split; [apply Z.div_pos | apply Z.div_lt_upper_bound]; lia).
  assert (0 <= t / 3600 < 100) by (split; [apply Z.div_pos | apply Z.div_lt_upper_bound]; lia).
  destruct (Z.ltb_spec s 3600) as [Hs|Hs]; destruct (Z.ltb_spec t 3600) as [Ht|Ht];
    simpl; intros Heq.
  - injection Heq as E1 E2 E3 E4.
    assert (Em : s / 60 mod 60 = t / 60 mod 60)
      by (apply two_digits_inj; [lia | lia | unfold two_digits; congruence]).
    assert (Es : s mod 60 = t mod 60)
      by (apply two_digits_inj; [lia | lia | unfold two_digits; congruence]).
    rewrite (hms_decompose s), (hms_decompose t).
    rewrite (Z.div_small s 3600), (Z.div_small t 3600) by lia. lia.
  - discriminate Heq.
  - discriminate Heq.
  - injection Heq as E1 E2 E3 E4 E5 E6.
    assert (Eh : s / 3600 = t / 3600)
      by (apply two_digits_inj; [lia | lia | unfold two_digits; congruence]).
    assert (Em : s / 60 mod 60 = t / 60 mod 60)
      by (apply two_digits_inj; [lia | lia | unfold two_digits; congruence]).
    assert (Es : s mod 60 = t mod 60)
      by (apply two_digits_inj; [lia | lia | unfold two_digits; congruence]).
    rewrite (hms_decompose s), (hms_decompose t). lia.
Qed.

Lemma format_timestamp_injective_witness : Qfloor (7451 # 2) = Qfloor 3725.
Proof.
  apply (format_timestamp_injective (7451 # 2) 3725);
    vm_compute; first [discriminate | reflexivity].
Defined.

(** ** get_transcript: what it returns and what it raises *)

Lemma get_transcript_reraised ytt_api video_id languages :
  get_transcript ytt_api video_id languages =
    match get_transcript_try ytt_api video_id (languages_of languages) with
    | Ok r => Ok r
    | Raise e => Raise (reraised e)
    end.
Proof.
  unfold get_transcript, reraised, languages_of.
  destruct (get_transcript_try _ _ _) as [r|e]; [done|].
  by repeat case_match.
Qed.

(** The preference search either returns a track of the catalog, of the
    kind and with a listed code, or raises [NoTranscriptFound]. *)
Lemma _find_transcript_cases (g : bool) (tl : TranscriptList) (langs : list string) :
  (exists t, _find_transcript g tl langs = Ok t /\ t ∈ tl /\
             is_generated t = g /\ language_code t ∈ langs) \/
  (exists m, _find_transcript g tl langs = Raise (Exn NoTranscriptFound m)).
Proof.
  induction langs as [|code rest IH]; simpl; [right; eauto|].
  destruct (List.find _ tl) as [t|] eqn:Hfind.
  - left. apply find_matching_Some in Hfind as (l1 & l2 & -> & _ & Hg & Hc).
    exists t. split; [done|]. split; [|split; [done|]].
    + apply elem_of_app. right. left.
    + rewrite Hc. left.
  - destruct IH as [(t & Hf & Hin & Hg & Hl)|[m Hm]].
    + left. exists t. repeat split; try done. by right.
    + right. eauto.
Qed.

(** X5.  The loop returns a selection exactly when some track is handled
    without an exception, all tracks before it having raised; what it
    returns is what the handling of the first such track gives. *)
Theorem for_loop_first_success (tl : TranscriptList) (r : Selection) :
  for_loop tl = Some r <->
  exists before transcript after,
    tl = (before ++ transcript :: after)%list /\
    Forall (fun t => exists e, loop_body t = Raise e) before /\
    loop_body transcript = Ok r.
Proof.
  split.
  - induction tl as [|t tl IH]; simpl; [discriminate|].
    destruct (loop_body t) as [r'|e] eqn:Hb.
    + intros [= ->]. exists [], t, tl. by repeat split.
    + intros H. destruct (IH H) as (before & x & after & -> & Hf & Hx).
      exists (t :: before), x, after. split; [done|]. split; [|done].
      constructor; eauto.
  - intros (before & x & after & -> & Hf & Hx).
    rewrite (for_loop_skip _ _ Hf). simpl. by rewrite Hx.
Qed.

Lemma for_loop_first_success_witness :
  exists before transcript after,
    [de_manual; es_manual; en_AU_manual] = (before ++ transcript :: after)%list /\
    Forall (fun t => exists e, loop_body t = Raise e) before /\
    loop_body transcript = Ok (hi, "en (translated from es)", "translated").
Proof.
  apply (proj1 (for_loop_first_success [de_manual; es_manual; en_AU_manual]
                  (hi, "en (translated from es)", "translated"))).
  reflexivity.
Defined.

Lemma for_loop_Some_elem (tl : TranscriptList) (r : Selection) :
  for_loop tl = Some r -> exists t, t ∈ tl /\ loop_body t = Ok r.
Proof.
  induction tl as [|t tl IH]; simpl; [discriminate|].
  destruct (loop_body t) as [r'|e] eqn:Hb.
  - intros [= ->]. exists t. split; [left | done].
  - intros H. destruct (IH H) as (x & Hin & Hx). exists x. split; [by right | done].
Qed.

Lemma loop_body_provenance (t : Transcript) (r : Selection) :
  loop_body t = Ok r -> untranslated_from t r \/ translated_from t r.
Proof.
  unfold loop_body. destruct (startswith (language_code t) "en") eqn:Hen.
  - destruct (fetch t) as [segs|e] eqn:Hf; simpl; [|discriminate].
    intros [= <-]. left. by exists segs.
  - destruct (translate t "en") as [t'|e] eqn:Htr; simpl; [|discriminate].
    destruct (fetch t') as [segs|e] eqn:Hf; simpl; [|discriminate].
    intros [= <-]. right. by exists t', segs.
Qed.

Lemma search_step_provenance (g : bool) (kind : string) (tl : TranscriptList)
    (langs : list string) (rest : result Selection) (r : Selection) :
  kind = (if g then "auto-generated" else "manual") ->
  try_pass NoTranscriptFound
    (transcript ← _find_transcript g tl langs;
     segments ← fetch transcript;
     Ok (segments, language_code transcript, kind)) rest = Ok r ->
  (exists t, t ∈ tl /\ untranslated_from t r) \/ rest = Ok r.
Proof.
  intros Hkind.
  destruct (_find_transcript_cases g tl langs) as [(t & -> & Hin & Hg & _)|[m ->]]; simpl.
  - destruct (fetch t) as [segs|e] eqn:Hf; simpl.
    + intros [= <-]. left. exists t. split; [done|]. exists segs.
      unfold transcript_type_of. rewrite Hg, Hkind. split; [exact Hf | reflexivity].
    + unfold try_pass.
      unfold isinstance. case_bool_decide; [intros Hrest; by right | discriminate].
  - intros H. by right.
Qed.

Lemma fallback_provenance (tl : TranscriptList) (r : Selection) :
  fallback tl = Ok r ->
  exists t, t ∈ tl /\ (untranslated_from t r \/ translated_from t r).
Proof.
  unfold fallback. destruct (for_loop tl) as [r'|] eqn:Hloop.
  - intros [= ->]. apply for_loop_Some_elem in Hloop as (t & Hin & Hb).
    exists t. split; [done|]. by apply loop_body_provenance.
  - destruct tl as [|t tl]; simpl; [discriminate|].
    destruct (fetch t) as [segs|e] eqn:Hf; simpl; [|discriminate].
    intros [= <-]. exists t. split; [left|]. left. by exists segs.
Qed.

Lemma get_transcript_try_provenance ytt_api video_id langs
    (tl : TranscriptList) (r : Selection) :
  api_list ytt_api video_id = Ok tl ->
  get_transcript_try ytt_api video_id langs = Ok r ->
  exists t, t ∈ tl /\ (untranslated_from t r \/ translated_from t r).
Proof.
  intros Hlist. unfold get_transcript_try. rewrite Hlist. simpl.
  unfold find_manually_created_transcript, find_generated_transcript.
  intros H.
  destruct (search_step_provenance false "manual" _ _ _ _ eq_refl H)
    as [(t & Hin & Ht)|H1]; [eauto|].
  destruct (search_step_provenance true "auto-generated" _ _ _ _ eq_refl H1)
    as [(t & Hin & Ht)|H2]; [eauto|].
  by apply fallback_provenance.
Qed.

(** X6.  Whatever is returned comes from one track of the catalog.
    Either it is that track fetched as it is, under its own code and with
    the kind its own flag gives, or the track is not English-prefixed and
    the result is its translation fetched, under en (translated from
    CODE) and the kind translated. *)
Theorem selection_provenance ytt_api video_id languages
    (tl : TranscriptList) (r : Selection) :
  api_list ytt_api video_id = Ok tl ->
  get_transcript ytt_api video_id languages = Ok r ->
  exists t, t ∈ tl /\ (untranslated_from t r \/ translated_from t r).
Proof.
  intros Hlist. rewrite get_transcript_reraised.
  destruct (get_transcript_try _ _ _) as [r'|e] eqn:Htry; [|discriminate].
  intros [= ->]. by eapply get_transcript_try_provenance.
Qed.

Lemma selection_provenance_witness :
  exists t, t ∈ [es_manual; en_AU_manual] /\
    (untranslated_from t (hi, "en (translated from es)", "translated") \/
     translated_from t (hi, "en (translated from es)", "translated")).
Proof.
  apply (selection_provenance (api_of [es_manual; en_AU_manual]) video None);
    reflexivity.
Defined.

(** X7.  The kind returned is always one of manual, auto-generated and
    translated. *)
Theorem transcript_type_closed ytt_api video_id languages
    segments language transcript_type :
  get_transcript ytt_api video_id languages = Ok (segments, language, transcript_type) ->
  transcript_type ∈ ["manual"; "auto-generated"; "translated"].
Proof.
  rewrite get_transcript_reraised.
  destruct (get_transcript_try _ _ _) as [r'|e] eqn:Htry; [|discriminate].
  intros [= ->].
  destruct (api_list ytt_api video_id) as [tl|e] eqn:Hlist.
  - destruct (get_transcript_try_provenance _ _ _ _ _ Hlist Htry)
      as (t & _ & [(s & _ & [= _ _ ->])|(t' & s & _ & _ & _ & [= _ _ ->])]).
    + unfold transcript_type_of. destruct (is_generated t); repeat constructor.
    + repeat constructor.
  - unfold get_transcript_try in Htry. rewrite Hlist in Htry. discriminate.
Qed.

Lemma transcript_type_closed_witness :
  "auto-generated" ∈ ["manual"; "auto-generated"; "translated"].
Proof.
  apply (transcript_type_closed (api_of [fr_generated]) video None bonjour "fr").
  reflexivity.
Defined.

(** X8.  [get_transcript] never raises [TranscriptsDisabled],
    [VideoUnavailable] or [NoTranscriptFound] itself: whatever it raises
    is of another class. *)
Theorem library_errors_never_escape ytt_api video_id languages e :
  get_transcript ytt_api video_id languages = Raise e ->
  exn_cls e ∉ [TranscriptsDisabled; VideoUnavailable; NoTranscriptFound].
Proof.
  rewrite get_transcript_reraised.
  destruct (get_transcript_try _ _ _) as [r'|e'] eqn:Htry; [discriminate|].
  intros [= <-]. unfold reraised, isinstance.
  repeat case_bool_decide; simpl; rewrite !not_elem_of_cons; repeat split;
    try done; apply not_elem_of_nil.
Qed.

Lemma library_errors_never_escape_witness :
  Exception ∉ [TranscriptsDisabled; VideoUnavailable; NoTranscriptFound].
Proof.
  apply (library_errors_never_escape (api_raising NoTranscriptFound) video None
           (Exn Exception "No transcript found for this video")).
  reflexivity.
Defined.

(** X9.  An exception of [list] that is of none of the three classes
    leaves [get_transcript] unchanged. *)
Theorem other_list_errors_pass_through ytt_api video_id languages e :
  api_list ytt_api video_id = Raise e ->
  exn_cls e ∉ [TranscriptsDisabled; VideoUnavailable; NoTranscriptFound] ->
  get_transcript ytt_api video_id languages = Raise e.
Proof.
  intros Hlist Hcls. rewrite get_transcript_reraised.
  unfold get_transcript_try. rewrite Hlist. simpl.
  unfold reraised, isinstance.
  rewrite !not_elem_of_cons in Hcls. destruct Hcls as (H1 & H2 & H3 & _).
  by rewrite !bool_decide_eq_false_2.
Qed.

Lemma other_list_errors_witness :
  get_transcript (api_raising RequestFailed) video None =
    Raise (Exn RequestFailed "Could not retrieve a transcript for the video").
Proof.
  apply other_list_errors_pass_through; [reflexivity | decide_now].
Defined.

(** X10.  Forward progress: when the catalog is not empty and every
    track of it can be fetched, [get_transcript] returns a selection,
    whatever the preference list and whatever the translations do. *)
Theorem forward_progress ytt_api video_id languages (tl : TranscriptList) :
  api_list ytt_api video_id = Ok tl ->
  tl <> [] ->
  Forall (fun t => exists segments, fetch t = Ok segments) tl ->
  exists r, get_transcript ytt_api video_id languages = Ok r.
Proof.
  intros Hlist Hne Hfetch. rewrite get_transcript_reraised.
  rewrite Forall_forall in Hfetch.
  unfold get_transcript_try. rewrite Hlist. simpl.
  unfold find_manually_created_transcript, find_generated_transcript.
  destruct (_find_transcript_cases false tl (languages_of languages))
    as [(t & -> & Hin & _)|[m ->]]; simpl.
  { destruct (Hfetch t Hin) as [segs ->]. simpl. eauto. }
  destruct (_find_transcript_cases true tl (languages_of languages))
    as [(t & -> & Hin & _)|[m' ->]]; simpl.
  { destruct (Hfetch t Hin) as [segs ->]. simpl. eauto. }
  destruct (for_loop tl); [eauto|].
  destruct tl as [|t tl]; [done|]. simpl.
  destruct (Hfetch t) as [segs ->]; [left|]. simpl. eauto.
Qed.

Lemma forward_progress_witness :
  exists r, get_transcript (api_of [fr_generated; de_manual]) video (Some ["ja"]) = Ok r.
Proof.
  apply (forward_progress _ _ _ [fr_generated; de_manual]); [reflexivity | done |].
  repeat constructor; eexists; reflexivity.
Defined.

(** X11.  A failing fetch of the manual track that the preference search
    returns ends the selection, unless the exception is
    [NoTranscriptFound]: no generated track is looked for, no track is
    scanned, and the exception leaves through the outer handlers. *)
Theorem manual_fetch_failure_is_fatal ytt_api video_id languages
    (tl : TranscriptList) t e :
  api_list ytt_api video_id = Ok tl ->
  find_manually_created_transcript tl (languages_of languages) = Ok t ->
  fetch t = Raise e ->
  exn_cls e <> NoTranscriptFound ->
  get_transcript ytt_api video_id languages = Raise (reraised e).
Proof.
  intros Hlist Hfind Hfetch Hcls. rewrite get_transcript_reraised.
  unfold get_transcript_try. rewrite Hlist. simpl. rewrite Hfind. simpl.
  rewrite Hfetch. simpl. unfold isinstance. by rewrite bool_decide_eq_false_2.
Qed.

Lemma manual_fetch_failure_witness :
  get_transcript (api_of [Edge.en_manual_unfetchable; en_generated; es_manual]) video None =
    Raise (Exn RequestFailed "request to YouTube failed").
Proof.
  apply (manual_fetch_failure_is_fatal _ _ _
           [Edge.en_manual_unfetchable; en_generated; es_manual]
           Edge.en_manual_unfetchable (Exn RequestFailed "request to YouTube failed"));
    [reflexivity | reflexivity | reflexivity | discriminate].
Defined.

(** X12.  When the fetch of that manual track raises [NoTranscriptFound],
    the selection goes on as if no manual track had matched: a generated
    track of the preference list, fetched, is returned as auto-generated
    although a manual track of the list exists. *)
Theorem manual_fetch_not_found_falls_through ytt_api video_id languages
    (tl : TranscriptList) t m t' segments :
  api_list ytt_api video_id = Ok tl ->
  find_manually_created_transcript tl (languages_of languages) = Ok t ->
  fetch t = Raise (Exn NoTranscriptFound m) ->
  find_generated_transcript tl (languages_of languages) = Ok t' ->
  fetch t' = Ok segments ->
  get_transcript ytt_api video_id languages =
    Ok (segments, language_code t', "auto-generated").
Proof.
  intros Hlist Hfind Hfetch Hfind' Hfetch'. rewrite get_transcript_reraised.
  unfold get_transcript_try. rewrite Hlist. simpl. rewrite Hfind. simpl.
  rewrite Hfetch. simpl. rewrite Hfind'. simpl. by rewrite Hfetch'.
Qed.

Lemma manual_fetch_not_found_witness :
  get_transcript (api_of [Edge.en_manual_missing; en_generated]) video None =
    Ok (hi, "en", "auto-generated").
Proof.
  apply (manual_fetch_not_found_falls_through _ _ _
           [Edge.en_manual_missing; en_generated]
           Edge.en_manual_missing "no transcript" en_generated hi); reflexivity.
Defined.

(** X13.  A preference list none of whose codes a track carries counts
    for nothing: the outcome is that of the empty preference list. *)
Theorem unmatched_preferences_are_ignored ytt_api video_id languages
    (tl : TranscriptList) :
  api_list ytt_api video_id = Ok tl ->
  Forall (fun t => language_code t ∉ languages_of languages) tl ->
  get_transcript ytt_api video_id languages = get_transcript ytt_api video_id (Some []).
Proof.
  intros Hlist Hnone. rewrite !get_transcript_reraised.
  rewrite (get_transcript_try_fallback _ _ _ _ Hlist Hnone).
  rewrite (get_transcript_try_fallback _ _ (Some []) _ Hlist); [done|].
  apply Forall_forall. intros t _ Hin. inversion Hin.
Qed.

Lemma unmatched_preferences_witness :
  get_transcript (api_of [es_manual; fr_generated]) video None =
  get_transcript (api_of [es_manual; fr_generated]) video (Some []).
Proof.
  apply (unmatched_preferences_are_ignored _ _ _ [es_manual; fr_generated]);
    [reflexivity | decide_now].
Defined.

(** ** Errors, end to end *)

Lemma search_step_raises (g : bool) (kind : string) (tl : TranscriptList)
    (langs : list string) (rest : result Selection) (e0 : exn) :
  try_pass NoTranscriptFound
    (transcript ← _find_transcript g tl langs;
     segments ← fetch transcript;
     Ok (segments, language_code transcript, kind)) rest = Raise e0 ->
  (exists t, t ∈ tl /\ fetch t = Raise e0) \/ rest = Raise e0.
Proof.
  destruct (_find_transcript_cases g tl langs) as [(t & -> & Hin & _)|[m ->]]; simpl.
  - destruct (fetch t) as [segs|e] eqn:Hf; simpl; [discriminate|].
    unfold try_pass, isinstance. case_bool_decide.
    + intros Hrest. by right.
    + intros [= <-]. left. by exists t.
  - intros Hrest. by right.
Qed.

(** An exception that leaves the [try] body was raised by [list], by
    the fetch of a track of the catalog, or by [next] on an empty
    catalog. *)
Lemma get_transcript_try_raises ytt_api video_id langs (e0 : exn) :
  get_transcript_try ytt_api video_id langs = Raise e0 ->
  api_list ytt_api video_id = Raise e0 \/
  exists tl : TranscriptList,
    api_list ytt_api video_id = Ok tl /\
    ((exists t, t ∈ tl /\ fetch t = Raise e0) \/
     (tl = [] /\ e0 = Exn StopIteration "")).
Proof.
  unfold get_transcript_try.
  destruct (api_list ytt_api video_id) as [tl|e] eqn:Hlist; simpl.
  2: { intros [= ->]. by left. }
  unfold find_manually_created_transcript, find_generated_transcript.
  intros H. right. exists tl. split; [done|].
  destruct (search_step_raises false _ _ _ _ _ H) as [Ht|H1]; [by left|].
  destruct (search_step_raises true _ _ _ _ _ H1) as [Ht|H2]; [by left|].
  destruct (for_loop tl); [discriminate|].
  destruct tl as [|t tl]; simpl in H2.
  - injection H2 as <-. by right.
  - destruct (fetch t) as [segs|e] eqn:Hf; simpl in H2; [discriminate|].
    injection H2 as <-. left. exists t. split; [left | done].
Qed.

(** C7.  When [list] raises [TranscriptsDisabled], [VideoUnavailable] or
    [NoTranscriptFound], [get_transcript] raises the error with the
    matching message, [main] catches it, prints it after the word Error
    and exits with status 1, writing no file.  An exception that a
    translation raises never reaches the caller: whatever
    [get_transcript] raises is, as the outer handlers pass it on, an
    exception raised by [list], by the fetch of a track of the catalog,
    or the [StopIteration] of an empty catalog; and the outcome of
    [get_transcript] is the same whatever exception each failing
    translation raises. *)
Theorem resolver_errors_are_terminal :
  (forall urlparse parse_qs re_sub_unsafe script_dir float_add
          ytt_api prog youtube_url rest video_id languages c m,
     c ∈ [TranscriptsDisabled; VideoUnavailable; NoTranscriptFound] ->
     api_list ytt_api video_id = Raise (Exn c m) ->
     extract_video_id urlparse parse_qs youtube_url = Ok (Some video_id) ->
     video_id <> "" ->
     get_transcript ytt_api video_id languages =
       Raise (Exn Exception (terminal_message c)) /\
     main urlparse parse_qs re_sub_unsafe script_dir float_add ytt_api
          (prog :: youtube_url :: rest) =
       mkOutcome
         ["YouTube URL: " ++ youtube_url;
          "Video ID: " ++ video_id;
          newline ++ "Fetching transcript...";
          "Error: " ++ terminal_message c]
         None (SysExit 1) /\
     exit_status (SysExit 1) <> 0) /\
  (forall ytt_api video_id languages e,
     get_transcript ytt_api video_id languages = Raise e ->
     exists e0,
       e = reraised e0 /\
       (api_list ytt_api video_id = Raise e0 \/
        exists tl : TranscriptList,
          api_list ytt_api video_id = Ok tl /\
          ((exists t, t ∈ tl /\ fetch t = Raise e0) \/
           (tl = [] /\ e0 = Exn StopIteration "")))) /\
  (forall f ytt_api ytt_api' video_id languages (transcript_list : TranscriptList),
     api_list ytt_api video_id = Ok transcript_list ->
     api_list ytt_api' video_id = Ok (map (with_translate_error f) transcript_list) ->
     get_transcript ytt_api video_id languages =
     get_transcript ytt_api' video_id languages).
Proof.
  split; [|split].
  - intros up pq rs dir fadd api prog url rest vid languages c m Hc Hlist Hid Hne.
    assert (Hget : forall languages, get_transcript api vid languages =
                     Raise (Exn Exception (terminal_message c))).
    { intros ls. unfold get_transcript, get_transcript_try. rewrite Hlist. simpl.
      repeat (apply elem_of_cons in Hc as [->|Hc]; [reflexivity|]).
      inversion Hc. }
    split; [apply Hget|]. split; [|done].
    unfold main. rewrite Hid. simpl.
    destruct (String.eqb_spec vid "") as [->|_]; [done|].
    by rewrite Hget.
  - intros api vid languages e. rewrite get_transcript_reraised.
    destruct (get_transcript_try _ _ _) as [r|e0] eqn:Htry; [discriminate|].
    intros [= <-]. exists e0. split; [done|].
    by apply get_transcript_try_raises in Htry.
  - intros f api api' vid languages tl H1 H2. unfold get_transcript.
    by rewrite (get_transcript_try_with_translate_error f api api' vid _ tl H1 H2).
Qed.

Lemma resolver_errors_witness :
  (get_transcript (api_raising TranscriptsDisabled) video None =
     Raise (Exn Exception "Transcripts are disabled for this video") /\
   main urlparse parse_qs (fun s => s) "/opt/scripts" Qplus
        (api_raising TranscriptsDisabled) ["transcribe_youtube.py"; video] =
     mkOutcome
       ["YouTube URL: dQw4w9WgXcQ";
        "Video ID: dQw4w9WgXcQ";
        newline ++ "Fetching transcript...";
        "Error: Transcripts are disabled for this video"]
       None (SysExit 1) /\
   exit_status (SysExit 1) <> 0) /\
  (exists e0,
     Exn RequestFailed "request to YouTube failed" = reraised e0 /\
     (api_list (api_of [en_AU_unfetchable; de_manual]) video = Raise e0 \/
      exists tl : TranscriptList,
        api_list (api_of [en_AU_unfetchable; de_manual]) video = Ok tl /\
        ((exists t, t ∈ tl /\ fetch t = Raise e0) \/
         (tl = [] /\ e0 = Exn StopIteration "")))) /\
  get_transcript (api_of [de_manual; fr_generated]) video None =
  get_transcript
    (api_of (map (with_translate_error (fun _ => Exn VideoUnavailable "")) [de_manual; fr_generated]))
    video None.
Proof.
  split; [|split].
  - apply (proj1 resolver_errors_are_terminal urlparse parse_qs (fun s => s) "/opt/scripts"
             Qplus (api_raising TranscriptsDisabled) "transcribe_youtube.py" video [] video None
             TranscriptsDisabled "Could not retrieve a transcript for the video").
    + repeat constructor.
    + reflexivity.
    + reflexivity.
    + discriminate.
  - apply (proj1 (proj2 resolver_errors_are_terminal)
             (api_of [en_AU_unfetchable; de_manual]) video None).
    reflexivity.
  - apply (proj2 (proj2 resolver_errors_are_terminal) (fun _ => Exn VideoUnavailable "")
             _ _ video None [de_manual; fr_generated]); reflexivity.
Defined.

(** ** extract_video_id: the id of each URL format *)

Section Strings.

Lemma append_cons (c : ascii) (s t : string) : String c s ++ t = String c (s ++ t).
Proof. reflexivity. Qed.

Lemma append_nil_r (s : string) : s ++ "" = s.
Proof. induction s as [|c s IH]; [done | by rewrite append_cons, IH]. Qed.

Lemma append_assoc (a b c : string) : (a ++ b) ++ c = a ++ (b ++ c).
Proof. induction a as [|x a IH]; [done | by rewrite !append_cons, IH]. Qed.

Lemma rev_app_spec (s1 s2 : string) : String.rev_app s1 s2 = String.rev s1 ++ s2.
Proof.
  unfold String.rev. revert s2.
  induction s1 as [|c s1 IH]; intros s2; [done|].
  change (String.rev_app (String c s1) s2) with (String.rev_app s1 (String c s2)).
  change (String.rev_app (String c s1) "") with (String.rev_app s1 (String c "")).
  rewrite (IH (String c s2)), (IH (String c "")), append_assoc. done.
Qed.

Lemma rev_cons (c : ascii) (s : string) :
  String.rev (String c s) = String.rev s ++ String c "".
Proof. apply (rev_app_spec s (String c "")). Qed.

Lemma rev_append (a b : string) : String.rev (a ++ b) = String.rev b ++ String.rev a.
Proof.
  induction a as [|c a IH].
  - change ("" ++ b) with b. by rewrite append_nil_r.
  - by rewrite append_cons, !rev_cons, IH, append_assoc.
Qed.

Lemma rev_involutive (s : string) : String.rev (String.rev s) = s.
Proof.
  induction s as [|c s IH]; [done|].
  by rewrite rev_cons, rev_append, IH.
Qed.

Lemma str_repeat_slash_snoc (n : nat) :
  str_repeat "/" n ++ "/" = "/" ++ str_repeat "/" n.
Proof.
  induction n as [|n IH]; [done|].
  change (str_repeat "/" (S n)) with (String "/"%char (str_repeat "/" n)).
  rewrite append_cons, IH. done.
Qed.

Lemma rev_str_repeat_slash (n : nat) :
  String.rev (str_repeat "/" n) = str_repeat "/" n.
Proof.
  induction n as [|n IH]; [done|].
  change (str_repeat "/" (S n)) with (String "/"%char (str_repeat "/" n)).
  rewrite rev_cons, IH. apply str_repeat_slash_snoc.
Qed.

Lemma lstrip_slash_other (c : ascii) (s : string) :
  c <> "/"%char -> lstrip_slash (String c s) = String c s.
Proof. intros Hc. destruct c as [[] [] [] [] [] [] [] []]; done. Qed.

Lemma lstrip_slash_spec (s : string) :
  exists n, s = str_repeat "/" n ++ lstrip_slash s /\
            forall u, lstrip_slash s <> "/" ++ u.
Proof.
  induction s as [|c s (n & Hs & Hu)].
  - exists O. split; [done | intros u; discriminate].
  - destruct (ascii_dec c "/") as [->|Hc].
    + exists (S n).
      change (lstrip_slash (String "/" s)) with (lstrip_slash s).
      change (str_repeat "/" (S n)) with (String "/"%char (str_repeat "/" n)).
      rewrite append_cons, <- Hs. done.
    + exists O. rewrite (lstrip_slash_other _ _ Hc).
      split; [done|]. intros u [= ->]. done.
Qed.

Lemma strip_slash_spec (s : string) :
  exists j k,
    s = str_repeat "/" j ++ strip_slash s ++ str_repeat "/" k /\
    (forall u, strip_slash s <> "/" ++ u) /\
    (forall u, strip_slash s <> u ++ "/").
Proof.
  unfold strip_slash.
  destruct (lstrip_slash_spec s) as (j & Hs & Hu).
  set (u := lstrip_slash s) in *.
  destruct (lstrip_slash_spec (String.rev u)) as (k & Hr & Hv).
  set (v := lstrip_slash (String.rev u)) in *.
  assert (Hu' : u = String.rev v ++ str_repeat "/" k).
  { rewrite <- (rev_involutive u), Hr, rev_append, rev_str_repeat_slash. done. }
  exists j, k. split; [by rewrite <- Hu'|]. split.
  - intros w Hw. apply (Hu (w ++ str_repeat "/" k)).
    rewrite Hu', Hw. done.
  - intros w Hw. apply (Hv (String.rev w)).
    rewrite <- (rev_involutive v), Hw, rev_append. done.
Qed.

Lemma prefix_slash_cons (c : ascii) (s : string) :
  String.prefix "/" (String c s) = bool_decide (c = "/"%char).
Proof.
  change (String.prefix "/" (String c s))
    with (match ascii_dec "/" c with
          | left _ => String.prefix "" s
          | right _ => false
          end).
  destruct (ascii_dec "/" c) as [<-|Hc].
  - rewrite bool_decide_eq_true_2 by done. by destruct s.
  - by rewrite bool_decide_eq_false_2 by congruence.
Qed.

Lemma contains_slash_cons (c : ascii) (s : string) :
  contains "/" (String c s) = false <-> c <> "/"%char /\ contains "/" s = false.
Proof.
  change (contains "/" (String c s))
    with (String.prefix "/" (String c s) || contains "/" s).
  rewrite prefix_slash_cons. case_bool_decide; simpl.
  - split; [discriminate | intros [H' _]; done].
  - tauto.
Qed.

Lemma contains_slash_snoc (m : string) (c : ascii) :
  contains "/" m = false -> c <> "/"%char ->
  contains "/" (m ++ String c "") = false.
Proof.
  intros Hm Hc. induction m as [|x m IH].
  - apply contains_slash_cons. done.
  - rewrite append_cons.
    apply contains_slash_cons in Hm as [Hx Hm].
    apply contains_slash_cons. auto.
Qed.

Lemma last_segment_from_other (acc : string) (c : ascii) (s : string) :
  c <> "/"%char -> last_segment_from acc (String c s) = last_segment_from acc s.
Proof. intros Hc. destruct c as [[] [] [] [] [] [] [] []]; done. Qed.

Lemma last_segment_from_spec (s pre m : string) :
  contains "/" m = false ->
  (pre = "" \/ exists pre', pre = pre' ++ "/") ->
  exists pre2,
    pre ++ m ++ s = pre2 ++ last_segment_from (m ++ s) s /\
    contains "/" (last_segment_from (m ++ s) s) = false /\
    (pre2 = "" \/ exists pre', pre2 = pre' ++ "/").
Proof.
  revert pre m. induction s as [|c s IH]; intros pre m Hm Hpre.
  - rewrite !append_nil_r. exists pre. done.
  - destruct (ascii_dec c "/") as [->|Hc].
    + change (last_segment_from (m ++ String "/" s) (String "/" s))
        with (last_segment_from ("" ++ s) s).
      destruct (IH (pre ++ m ++ "/") "" eq_refl) as (pre2 & H1 & H2 & H3).
      { right. exists (pre ++ m). by rewrite append_assoc. }
      exists pre2. split; [|done].
      rewrite <- H1. rewrite !append_assoc. done.
    + rewrite (last_segment_from_other _ _ _ Hc).
      replace (m ++ String c s) with ((m ++ String c "") ++ s)
        by (by rewrite append_assoc).
      destruct (IH pre (m ++ String c "")) as (pre2 & H1 & H2 & H3);
        [by apply contains_slash_snoc | done |].
      exists pre2. split; [|done]. rewrite <- H1. by rewrite !append_assoc.
Qed.

Lemma last_segment_spec (s : string) :
  exists pre,
    s = pre ++ last_segment s /\
    contains "/" (last_segment s) = false /\
    (pre = "" \/ exists pre', pre = pre' ++ "/").
Proof.
  destruct (last_segment_from_spec s "" "" eq_refl (or_introl eq_refl))
    as (pre & H1 & H2 & H3).
  by exists pre.
Qed.

End Strings.

Lemma prefix_first_char (c : ascii) (sub s : string) :
  String.prefix (String c sub) s = true -> String.prefix (String c "") s = true.
Proof.
  destruct s as [|x s]; [done|].
  change (String.prefix (String c sub) (String x s))
    with (match ascii_dec c x with
          | left _ => String.prefix sub s
          | right _ => false
          end).
  change (String.prefix (String c "") (String x s))
    with (match ascii_dec c x with
          | left _ => String.prefix "" s
          | right _ => false
          end).
  destruct (ascii_dec c x); [|done]. intros _. by destruct s.
Qed.

Lemma contains_first_char (c : ascii) (sub s : string) :
  contains (String c sub) s = true -> contains (String c "") s = true.
Proof.
  induction s as [|x s IH].
  - done.
  - change (contains (String c sub) (String x s))
      with (String.prefix (String c sub) (String x s) || contains (String c sub) s).
    change (contains (String c "") (String x s))
      with (String.prefix (String c "") (String x s) || contains (String c "") s).
    intros [H|H]%orb_true_iff.
    + by rewrite (prefix_first_char _ _ _ H).
    + rewrite (IH H). apply orb_true_r.
Qed.

(** X14.  A URL that contains youtu.be gives the path of the URL without
    its leading and trailing slashes, whatever the query string holds:
    the id neither starts nor ends with a slash. *)
Theorem short_link_id_is_stripped_path
    (urlparse : string -> result ParseResult)
    (parse_qs : string -> gmap string (list string))
    (youtube_url : string) (parsed : ParseResult) :
  contains "youtu.be" youtube_url = true ->
  urlparse youtube_url = Ok parsed ->
  exists video_id j k,
    extract_video_id urlparse parse_qs youtube_url = Ok (Some video_id) /\
    path parsed = str_repeat "/" j ++ video_id ++ str_repeat "/" k /\
    (forall u, video_id <> "/" ++ u) /\
    (forall u, video_id <> u ++ "/").
Proof.
  intros Hshort Hparse.
  destruct (strip_slash_spec (path parsed)) as (j & k & H1 & H2 & H3).
  exists (strip_slash (path parsed)), j, k. split; [|done].
  unfold extract_video_id. by rewrite Hshort, Hparse.
Qed.

Lemma short_link_witness :
  exists video_id j k,
    extract_video_id Edge.urlparse parse_qs "https://youtu.be/dQw4w9WgXcQ/"
      = Ok (Some video_id) /\
    "/dQw4w9WgXcQ/" = str_repeat "/" j ++ video_id ++ str_repeat "/" k /\
    (forall u, video_id <> "/" ++ u) /\
    (forall u, video_id <> u ++ "/").
Proof.
  apply (short_link_id_is_stripped_path Edge.urlparse parse_qs
           "https://youtu.be/dQw4w9WgXcQ/"
           (mkParseResult "https" "youtu.be" "/dQw4w9WgXcQ/" "" "" "")); reflexivity.
Defined.

(** X15.  A youtube.com URL without youtu.be in it, whose path does not
    contain /watch and contains /embed/ or /v/, gives what follows the
    last slash of the path: an id without any slash. *)
Theorem embed_id_is_last_segment
    (urlparse : string -> result ParseResult)
    (parse_qs : string -> gmap string (list string))
    (youtube_url : string) (parsed : ParseResult) :
  contains "youtu.be" youtube_url = false ->
  urlparse youtube_url = Ok parsed ->
  contains "youtube.com" (netloc parsed) = true ->
  contains "/watch" (path parsed) = false ->
  contains "/embed/" (path parsed) || contains "/v/" (path parsed) = true ->
  exists video_id before,
    extract_video_id urlparse parse_qs youtube_url = Ok (Some video_id) /\
    path parsed = before ++ "/" ++ video_id /\
    contains "/" video_id = false.
Proof.
  intros Hshort Hparse Hnet Hwatch Hembed.
  destruct (last_segment_spec (path parsed)) as (pre & Hp & Hno & Hpre).
  assert (Hslash : contains "/" (path parsed) = true).
  { apply orb_true_iff in Hembed as [H|H]; by apply contains_first_char in H. }
  destruct Hpre as [->|[before ->]].
  - change ("" ++ last_segment (path parsed)) with (last_segment (path parsed)) in Hp.
    rewrite <- Hp in Hno. congruence.
  - exists (last_segment (path parsed)), before. split; [|split; [|done]].
    + unfold extract_video_id. rewrite Hshort, Hparse. simpl.
      by rewrite Hnet, Hwatch, Hembed.
    + by rewrite <- append_assoc.
Qed.

Lemma embed_id_witness :
  exists video_id before,
    extract_video_id Edge.urlparse parse_qs "https://www.youtube.com/embed/dQw4w9WgXcQ"
      = Ok (Some video_id) /\
    "/embed/dQw4w9WgXcQ" = before ++ "/" ++ video_id /\
    contains "/" video_id = false.
Proof.
  apply (embed_id_is_last_segment Edge.urlparse parse_qs
           "https://www.youtube.com/embed/dQw4w9WgXcQ"
           (mkParseResult "https" "www.youtube.com" "/embed/dQw4w9WgXcQ" "" "" ""));
    reflexivity.
Defined.

(** X16.  [extract_video_id] raises exactly when [urlparse] raises, and
    then the same exception, as long as [parse_qs] gives no empty list of
    values for [v] (it never does). *)
Theorem extract_video_id_raises_iff
    (urlparse : string -> result ParseResult)
    (parse_qs : string -> gmap string (list string))
    (youtube_url : string) (e : exn) :
  (forall qs, parse_qs qs !! "v" <> Some []) ->
  extract_video_id urlparse parse_qs youtube_url = Raise e <->
  urlparse youtube_url = Raise e.
Proof.
  intros Hqs. unfold extract_video_id.
  destruct (urlparse youtube_url) as [parsed|e'] eqn:Hparse; simpl.
  - split; [|discriminate].
    specialize (Hqs (query parsed)).
    repeat case_match; intros Hr; try discriminate Hr; congruence.
  - destruct (contains "youtu.be" youtube_url); split; by intros [= ->].
Qed.

Lemma sample_parse_qs_values (qs : string) : parse_qs qs !! "v" <> Some [].
Proof.
  unfold parse_qs. repeat case_match; intros Hv; vm_compute in Hv; discriminate Hv.
Qed.

Lemma extract_video_id_raises_witness :
  extract_video_id Edge.urlparse parse_qs "http://[" =
    Raise (Exn ValueError "Invalid IPv6 URL").
Proof.
  apply (extract_video_id_raises_iff Edge.urlparse parse_qs "http://["
           (Exn ValueError "Invalid IPv6 URL") sample_parse_qs_values).
  reflexivity.
Defined.

(** ** main: the file and the exit status *)

Section MainInvariant.

Context (urlparse : string -> result ParseResult).
Context (parse_qs : string -> gmap string (list string)).
Context (re_sub_unsafe : string -> string) (script_dir : string).
Context (float_add : Q -> Q -> Q).

(** X17.  The output file is written exactly in the runs that reach the
    end of [main], and these are exactly the runs whose exit status is 0:
    a run that stops on the usage message, on a missing video id, on an
    exception of [extract_video_id] or of [get_transcript] writes no
    file and exits with a status other than 0. *)
Theorem file_written_iff_success ytt_api argv :
  let o := main urlparse parse_qs re_sub_unsafe script_dir float_add ytt_api argv in
  (is_Some (saved o) <-> termination o = Finished) /\
  (exit_status (termination o) = 0 <-> termination o = Finished).
Proof.
  unfold main.
  destruct argv as [|prog [|url rest]]; simpl.
  1,2: split; split; (discriminate || by intros []).
  destruct (extract_video_id urlparse parse_qs url) as [vid|e]; simpl.
  2: split; split; (discriminate || by intros []).
  destruct (falsy vid); simpl.
  1: split; split; (discriminate || by intros []).
  destruct (get_transcript ytt_api (default "" vid) None) as [[[tr lang] kind]|e]; simpl.
  - split; split; eauto.
  - split; split; (discriminate || by intros []).
Qed.

End MainInvariant.
